(** * tokencount: cache priming and token counting

    A shallow embedding of [tools/tokencount/tokencount.py].  The script

    - derives a cache directory next to itself and creates it,
    - publishes it through the [TIKTOKEN_CACHE_DIR] environment variable,
    - names a cache entry by the SHA-1 hex digest of the vocabulary URL,
    - creates a symbolic link under that name unless [os.path.exists]
      says the name is taken,
    - prints the number of tokens the tokenizer library yields for the
      text read from standard input.

    Library calls are embedded by what they compute: [hashlib.sha1] as
    FIPS 180-4 SHA-1 over 32-bit words kept in [Z], [str.encode] as the
    UTF-8 encoder, [os.path] as the [posixpath] string functions, the file
    system calls as functions on a directory tree with symbolic links.
    The tokenizer library is not part of the repository and stays a
    parameter of the development; standard input is taken as the text
    [sys.stdin.read()] returns. *)

From Stdlib Require Import ZArith Lia Ascii String List.
From stdpp Require Import gmap strings list fin_maps.

#[local] Set Warnings "-register-all".
#[local] Open Scope Z_scope.

(** ** Python values *)

(** A Python [str] is a sequence of Unicode code points; [bytes] is a
    sequence of octets.  Paths, environment values and the text written to
    standard output are kept as Rocq strings (one character per octet). *)
Definition str := list Z.
Definition bytes := list Z.

Definition code_of_ascii (c : ascii) : Z := Z.of_N (N_of_ascii c).

Fixpoint str_of_string (s : string) : str :=
  match s with
  | EmptyString => []
  | String c s' => code_of_ascii c :: str_of_string s'
  end.

(** Exceptions the script can die from. *)
Inductive exn :=
| FileExistsError
| FileNotFoundError
| NotADirectoryError
| PermissionError
| LoopError               (* OSError with errno ELOOP *)
| UnicodeEncodeError
| LibraryError (tag : Z). (* anything raised inside the tokenizer library *)

Inductive result (A : Type) :=
| Ok (a : A)
| Raise (e : exn).
Arguments Ok {A} a.
Arguments Raise {A} e.

Definition bind {A B} (r : result A) (k : A → result B) : result B :=
  match r with
  | Ok a => k a
  | Raise e => Raise e
  end.

Notation "'let*' x := r 'in' k" := (bind r (λ x, k))
  (at level 10, x name, r at level 100, k at level 200, only parsing).

(** ** [str.encode()]: UTF-8 *)
Module Utf8.

Definition cont (x : Z) : Z := Z.lor 0x80 (Z.land x 0x3F).

(** One code point.  Lone surrogates are refused, as CPython's strict
    encoder does. *)
Definition encode_char (c : Z) : option bytes :=
  if c <? 0 then None
  else if c <? 0x80 then Some [c]
  else if c <? 0x800 then Some [Z.lor 0xC0 (Z.shiftr c 6); cont c]
  else if c <? 0x10000 then
    if (0xD800 <=? c) && (c <=? 0xDFFF) then None
    else Some [Z.lor 0xE0 (Z.shiftr c 12); cont (Z.shiftr c 6); cont c]
  else if c <? 0x110000 then
    Some [Z.lor 0xF0 (Z.shiftr c 18); cont (Z.shiftr c 12);
          cont (Z.shiftr c 6); cont c]
  else None.

Fixpoint encode (s : str) : result bytes :=
  match s with
  | [] => Ok []
  | c :: s' =>
      match encode_char c with
      | None => Raise UnicodeEncodeError
      | Some bs => let* rest := encode s' in Ok (bs ++ rest)
      end
  end.

End Utf8.

(** ** [hashlib.sha1(...).hexdigest()] *)
Module Sha1.

Definition w32 (x : Z) : Z := x mod 2 ^ 32.
Definition add32 (x y : Z) : Z := w32 (x + y).
Definition not32 (x : Z) : Z := Z.lxor x 0xFFFFFFFF.
Definition rotl (n x : Z) : Z :=
  w32 (Z.lor (Z.shiftl x n) (Z.shiftr x (32 - n))).

Record state := State { h0 : Z; h1 : Z; h2 : Z; h3 : Z; h4 : Z }.

Definition init : state :=
  State 0x67452301 0xEFCDAB89 0x98BADCFE 0x10325476 0xC3D2E1F0.

(** Big-endian octets of a 32-bit and of a 64-bit quantity. *)
Definition octet (x k : Z) : Z := Z.land (Z.shiftr x k) 0xFF.
Definition be32 (x : Z) : bytes := [octet x 24; octet x 16; octet x 8; octet x 0].
Definition be64 (x : Z) : bytes := be32 (Z.shiftr x 32) ++ be32 x.

(** Message padding: a one bit, zeros up to 56 mod 64, the bit length. *)
Definition pad (msg : bytes) : bytes :=
  let n := Z.of_nat (length msg) in
  msg ++ [0x80] ++ repeat 0 (Z.to_nat ((55 - n) mod 64)) ++ be64 (8 * n).

Fixpoint chunks {A} (fuel size : nat) (l : list A) : list (list A) :=
  match fuel with
  | O => []
  | S fuel' =>
      match l with
      | [] => []
      | _ => take size l :: chunks fuel' size (drop size l)
      end
  end.

Definition word_of (bs : bytes) : Z :=
  fold_left (λ acc b, Z.lor (Z.shiftl acc 8) b) bs 0.

Definition block_words (block : bytes) : list Z :=
  map word_of (chunks 16 4 block).

(** Message schedule, kept newest word first while it grows. *)
Fixpoint expand (n : nat) (rev_ws : list Z) : list Z :=
  match n with
  | O => rev_ws
  | S n' =>
      let x := Z.lxor (Z.lxor (Z.lxor (nth 2 rev_ws 0) (nth 7 rev_ws 0))
                              (nth 13 rev_ws 0)) (nth 15 rev_ws 0) in
      expand n' (rotl 1 x :: rev_ws)
  end.

Definition schedule (block : bytes) : list Z :=
  rev (expand 64 (rev (block_words block))).

Definition f (t : nat) (b c d : Z) : Z :=
  if (t <? 20)%nat then Z.lor (Z.land b c) (Z.land (not32 b) d)
  else if (t <? 40)%nat then Z.lxor (Z.lxor b c) d
  else if (t <? 60)%nat then
    Z.lor (Z.lor (Z.land b c) (Z.land b d)) (Z.land c d)
  else Z.lxor (Z.lxor b c) d.

Definition k (t : nat) : Z :=
  if (t <? 20)%nat then 0x5A827999
  else if (t <? 40)%nat then 0x6ED9EBA1
  else if (t <? 60)%nat then 0x8F1BBCDC
  else 0xCA62C1D6.

Definition round (s : state) (tw : nat * Z) : state :=
  let '(t, w) := tw in
  let temp :=
    add32 (add32 (add32 (add32 (rotl 5 (h0 s)) (f t (h1 s) (h2 s) (h3 s)))
                        (h4 s)) (k t)) w in
  State temp (h0 s) (rotl 30 (h1 s)) (h2 s) (h3 s).

Definition compress (s : state) (block : bytes) : state :=
  let ws := schedule block in
  let r := fold_left round (combine (seq 0 80) ws) s in
  State (add32 (h0 s) (h0 r)) (add32 (h1 s) (h1 r)) (add32 (h2 s) (h2 r))
        (add32 (h3 s) (h3 r)) (add32 (h4 s) (h4 r)).

Definition sha1 (msg : bytes) : state :=
  let padded := pad msg in
  fold_left compress (chunks (length padded) 64 padded) init.

Definition digest (msg : bytes) : bytes :=
  let s := sha1 msg in
  be32 (h0 s) ++ be32 (h1 s) ++ be32 (h2 s) ++ be32 (h3 s) ++ be32 (h4 s).

(** Lowercase hexadecimal rendering, two characters per octet. *)
Definition hexdigit (n : Z) : ascii :=
  match n with
  | 0 => "0" | 1 => "1" | 2 => "2" | 3 => "3" | 4 => "4"
  | 5 => "5" | 6 => "6" | 7 => "7" | 8 => "8" | 9 => "9"
  | 10 => "a" | 11 => "b" | 12 => "c" | 13 => "d" | 14 => "e"
  | _ => "f"
  end%char.

Fixpoint hex (bs : bytes) : string :=
  match bs with
  | [] => EmptyString
  | b :: bs' =>
      String (hexdigit (Z.shiftr b 4)) (String (hexdigit (Z.land b 0xF)) (hex bs'))
  end.

Definition hexdigest (msg : bytes) : string := hex (digest msg).

End Sha1.

(** ** [os.path]: the [posixpath] string functions *)
Module Posixpath.

#[local] Open Scope string_scope.

Definition is_sep (c : ascii) : bool := Ascii.eqb c "/".
Definition is_empty (s : string) : bool :=
  match s with EmptyString => true | _ => false end.

Definition isabs (s : string) : bool :=
  match s with String c _ => is_sep c | EmptyString => false end.

Fixpoint endswith_sep (s : string) : bool :=
  match s with
  | EmptyString => false
  | String c EmptyString => is_sep c
  | String _ s' => endswith_sep s'
  end.

(** [join(a, b)]: an absolute [b] discards [a]. *)
Definition join (a b : string) : string :=
  if isabs b then b
  else if is_empty a || endswith_sep a then a +:+ b
  else a +:+ "/" +:+ b.

(** [s.split('/')]: the fields between separators, empty ones included. *)
Fixpoint fields (s : string) : list string :=
  match s with
  | EmptyString => [EmptyString]
  | String c s' =>
      if is_sep c then EmptyString :: fields s'
      else match fields s' with
           | [] => [String c EmptyString]
           | fld :: flds => String c fld :: flds
           end
  end.

(** The names a path is made of, as the kernel reads it: empty fields
    (doubled, leading and trailing separators) carry no name. *)
Definition components (s : string) : list string :=
  filter (λ fld, fld ≠ EmptyString) (fields s).

(** [(p[:i], p[i:])] with [i = p.rfind('/') + 1]. *)
Fixpoint rsplit (s : string) : string * string :=
  match s with
  | EmptyString => (EmptyString, EmptyString)
  | String c s' =>
      let '(h, t) := rsplit s' in
      if is_sep c || negb (is_empty h) then (String c h, t)
      else (EmptyString, String c t)
  end.

Fixpoint all_sep (s : string) : bool :=
  match s with
  | EmptyString => true
  | String c s' => is_sep c && all_sep s'
  end.

Fixpoint rstrip_sep (s : string) : string :=
  match s with
  | EmptyString => EmptyString
  | String c s' =>
      let r := rstrip_sep s' in
      if is_sep c && is_empty r then EmptyString else String c r
  end.

(** [split(p)]: head and tail around the last separator; the head loses
    its trailing separators unless it consists of separators only. *)
Definition split (p : string) : string * string :=
  let '(head, tail) := rsplit p in
  (if negb (is_empty head) && negb (all_sep head) then rstrip_sep head else head,
   tail).

Definition dirname (p : string) : string := fst (split p).

(** [normpath]: drop empty and [.] fields, cancel [..] against the name
    before it; one or two leading separators are kept, three or more
    collapse to one. *)
Definition initial_slashes (path : string) : nat :=
  match path with
  | String c1 (String c2 (String c3 _)) =>
      if is_sep c1 then if is_sep c2 then if is_sep c3 then 1 else 2 else 1
      else 0
  | String c1 (String c2 EmptyString) =>
      if is_sep c1 then if is_sep c2 then 2 else 1 else 0
  | String c1 EmptyString => if is_sep c1 then 1 else 0
  | EmptyString => 0
  end%nat.

(** The loop over the fields; [new_comps] is kept last name first. *)
Fixpoint norm_comps (slashes : nat) (comps new_comps : list string)
  : list string :=
  match comps with
  | [] => rev new_comps
  | comp :: comps' =>
      if bool_decide (comp = "") || bool_decide (comp = ".") then
        norm_comps slashes comps' new_comps
      else if negb (bool_decide (comp = ".."))
              || (bool_decide (slashes = 0%nat) && bool_decide (new_comps = []))
              || match new_comps with
                 | top :: _ => bool_decide (top = "..")
                 | [] => false
                 end
      then norm_comps slashes comps' (comp :: new_comps)
      else norm_comps slashes comps' (tail new_comps)
  end.

Fixpoint sep_join (comps : list string) : string :=
  match comps with
  | [] => ""
  | [c] => c
  | c :: comps' => c +:+ "/" +:+ sep_join comps'
  end.

Fixpoint seps (n : nat) : string :=
  match n with O => "" | S n' => String "/" (seps n') end.

Definition normpath (path : string) : string :=
  if is_empty path then "."
  else
    let slashes := initial_slashes path in
    let path' := seps slashes +:+ sep_join (norm_comps slashes (fields path) []) in
    if is_empty path' then "." else path'.

(** [abspath(path)], given what [os.getcwd()] returns. *)
Definition abspath (getcwd path : string) : string :=
  normpath (if isabs path then path else join getcwd path).

End Posixpath.

(** ** The file system

    What the kernel does with the paths the script hands it.  The model
    keeps what the script can observe: which names a directory holds,
    what kind of node a name leads to, where symbolic links point, and
    whether a directory takes new entries.  A trailing separator is
    dropped with the other empty fields (no path the script builds ends
    in one), and search permission is not modelled.  Nor are the
    failures of a creating call that hang on what is left out here: a
    name or a path too long, a full device, a file system without
    symbolic links, a umask that takes the owner's write permission from
    a new directory.  What a creating call leaves when it succeeds does
    not depend on them. *)
Module Fs.

Import Posixpath.
#[local] Open Scope string_scope.

(** A directory maps names to nodes and may refuse new entries; a
    symbolic link stores its target text uninterpreted. *)
Inductive node :=
| Dir (writable : bool) (entries : gmap string node)
| File (data : bytes)
| Symlink (target : string).

(** A location names a node by the entry names leading to it from the
    root, symbolic links already resolved. *)
Definition location := list string.

Record world := World {
  root : node;
  cwd : location;
  environ : gmap string string;
}.

Fixpoint get (t : node) (loc : location) : option node :=
  match loc with
  | [] => Some t
  | c :: loc' =>
      match t with
      | Dir _ es =>
          match es !! c with
          | Some t' => get t' loc'
          | None => None
          end
      | _ => None
      end
  end.

(** Put [n] under [name] in the directory at [loc]. *)
Fixpoint add_entry (t : node) (loc : location) (name : string) (n : node)
  : node :=
  match t with
  | Dir wr es =>
      match loc with
      | [] => Dir wr (<[name := n]> es)
      | c :: loc' =>
          match es !! c with
          | Some t' => Dir wr (<[c := add_entry t' loc' name n]> es)
          | None => t
          end
      end
  | _ => t
  end.

Definition parent (loc : location) : location := removelast loc.

(** Path walk.  Every name is looked up in the directory reached so far;
    a symbolic link splices its target in front of the names still to be
    read and is charged to the link budget.  The walk answers with what
    is left of the budget and the location it arrived at. *)
Section Walk.
Variable t : node.
Variable links : nat.
Variable follow : location → list string → result (nat * location).

Fixpoint walk_comps (cur : location) (comps : list string)
  : result (nat * location) :=
  match comps with
  | [] => Ok (links, cur)
  | c :: rest =>
      match get t cur with
      | Some (Dir _ es) =>
          if bool_decide (c = ".") then walk_comps cur rest
          else if bool_decide (c = "..") then walk_comps (parent cur) rest
          else
            match es !! c with
            | None => Raise FileNotFoundError
            | Some (Symlink target) =>
                follow (if isabs target then [] else cur)
                       (components target ++ rest)%list
            | Some _ => walk_comps (cur ++ [c])%list rest
            end
      | Some _ => Raise NotADirectoryError
      | None => Raise FileNotFoundError
      end
  end.
End Walk.

Fixpoint walk (links : nat) (t : node)
  : location → list string → result (nat * location) :=
  match links with
  | O => walk_comps t O (λ _ _, Raise LoopError)
  | S links' => walk_comps t links (walk links' t)
  end.

Definition MAXSYMLINKS : nat := 40.

Definition start (w : world) (path : string) : location :=
  if isabs path then [] else cwd w.

(** [os.stat] with a given link budget: where the path leads, all
    links followed. *)
Definition stat_within (links : nat) (w : world) (path : string)
  : result location :=
  if is_empty path then Raise FileNotFoundError
  else
    let* r := walk links (root w) (start w path) (components path) in
    Ok r.2.

Definition stat : world → string → result location :=
  stat_within MAXSYMLINKS.

(** [os.path.exists] and [os.path.isdir] are [os.stat] with the error
    swallowed. *)
Definition exists_ (w : world) (path : string) : bool :=
  match stat w path with Ok _ => true | Raise _ => false end.

Definition isdir (w : world) (path : string) : bool :=
  match stat w path with
  | Ok loc =>
      match get (root w) loc with Some (Dir _ _) => true | _ => false end
  | Raise _ => false
  end.

Definition split_last (comps : list string) : option (list string * string) :=
  match last comps with
  | Some name => Some (removelast comps, name)
  | None => None
  end.

(** The directory a new entry would go to and the entry's name: the
    last name of the path is not followed. *)
Definition slot (w : world) (path : string) : result (location * string) :=
  if is_empty path then Raise FileNotFoundError
  else
    match split_last (components path) with
    | None => Raise FileExistsError
    | Some (dir_comps, name) =>
        let* r := walk MAXSYMLINKS (root w) (start w path) dir_comps in
        match get (root w) r.2 with
        | Some (Dir _ _) => Ok (r.2, name)
        | Some _ => Raise NotADirectoryError
        | None => Raise FileNotFoundError
        end
    end.

(** [os.lstat]: the node a path names, a final link not followed. *)
Definition lstat (w : world) (path : string) : result node :=
  let* dn := slot w path in
  if bool_decide (dn.2 = ".") || bool_decide (dn.2 = "..") then
    let* loc := stat w path in
    match get (root w) loc with
    | Some n => Ok n
    | None => Raise FileNotFoundError
    end
  else
    match get (root w) (dn.1 ++ [dn.2])%list with
    | Some n => Ok n
    | None => Raise FileNotFoundError
    end.

(** [os.listdir]: the entries of the directory a path leads to. *)
Definition listdir (w : world) (path : string) : result (gmap string node) :=
  let* loc := stat w path in
  match get (root w) loc with
  | Some (Dir _ es) => Ok es
  | Some _ => Raise NotADirectoryError
  | None => Raise FileNotFoundError
  end.

(** Creating an entry: the name must be free, the directory writable. *)
Definition create (path : string) (n : node) (w : world) : result world :=
  let* dn := slot w path in
  if bool_decide (dn.2 = ".") || bool_decide (dn.2 = "..") then
    Raise FileExistsError
  else
    match get (root w) dn.1 with
    | Some (Dir wr es) =>
        match es !! dn.2 with
        | Some _ => Raise FileExistsError
        | None =>
            if wr then
              Ok (World (add_entry (root w) dn.1 dn.2 n) (cwd w) (environ w))
            else Raise PermissionError
        end
    | _ => Raise NotADirectoryError
    end.

(** [os.mkdir(path)] and [os.symlink(target, path)]. *)
Definition mkdir (path : string) (w : world) : result world :=
  create path (Dir true ∅) w.

Definition symlink (target path : string) (w : world) : result world :=
  if is_empty target then Raise FileNotFoundError
  else create path (Symlink target) w.

(** [os.makedirs(name, exist_ok=True)].  A failed call may leave the
    ancestors it made, so the world is returned next to the result.
    The recursion is on the head of [split], a shorter string; [fuel]
    bounds it and [length name] is enough. *)
Fixpoint makedirs_fuel (fuel : nat) (name : string) (w : world)
  : world * result unit :=
  let '(head, tail) := split name in
  let '(head, tail) := if is_empty tail then split head else (head, tail) in
  let '(w1, r1, stop) :=
    if negb (is_empty head) && negb (is_empty tail) && negb (exists_ w head)
    then
      let '(w', r') :=
        match fuel with
        | O => (w, Ok tt)
        | S fuel' => makedirs_fuel fuel' head w
        end in
      let r'' :=
        match r' with
        | Raise FileExistsError => Ok tt
        | _ => r'
        end in
      (w', r'', bool_decide (tail = "."))
    else (w, Ok tt, false) in
  match r1 with
  | Raise e => (w1, Raise e)
  | Ok _ =>
      if stop then (w1, Ok tt)
      else
        match mkdir name w1 with
        | Ok w2 => (w2, Ok tt)
        | Raise e => if isdir w1 name then (w1, Ok tt) else (w1, Raise e)
        end
  end.

Definition makedirs (name : string) (w : world) : world * result unit :=
  makedirs_fuel (String.length name) name w.

Definition getcwd (w : world) : string := "/" +:+ sep_join (cwd w).

Definition setenv (key value : string) (w : world) : world :=
  World (root w) (cwd w) (<[key := value]> (environ w)).

End Fs.

(** ** [print(len(...))]: decimal rendering of a count *)
Module Pyint.

Definition digit (d : nat) : ascii := ascii_of_nat (48 + d).

(** Least significant digit first, pushed in front of what is already
    written; [fuel] bounds the number of digits. *)
Fixpoint digits (fuel n : nat) (acc : string) : string :=
  match fuel with
  | O => acc
  | S fuel' =>
      let acc' := String (digit (n mod 10)) acc in
      if (n <? 10)%nat then acc' else digits fuel' (n / 10) acc'
  end.

(** [str(n)] for a non-negative [n]. *)
Definition repr (n : nat) : string := digits (S n) n EmptyString.

Definition is_digit (c : ascii) : bool :=
  (48 <=? nat_of_ascii c)%nat && (nat_of_ascii c <=? 57)%nat.

(** [int(s)] for a string of digits. *)
Fixpoint value_from (acc : nat) (s : string) : option nat :=
  match s with
  | EmptyString => Some acc
  | String c s' =>
      if is_digit c then value_from (10 * acc + (nat_of_ascii c - 48))%nat s'
      else None
  end.

Definition value (s : string) : option nat :=
  match s with
  | EmptyString => None
  | _ => value_from 0 s
  end.

End Pyint.

(** ** The script *)
Module Tokencount.

Import Posixpath Fs.
#[local] Open Scope string_scope.

(** A process in a world: running it leaves a world and either a value
    or the exception that ended it. *)
Definition M (A : Type) : Type := world → world * result A.

Definition ret {A} (a : A) : M A := λ w, (w, Ok a).

Definition mbind {A B} (m : M A) (k : A → M B) : M B :=
  λ w, match m w with
       | (w', Ok a) => k a w'
       | (w', Raise e) => (w', Raise e)
       end.

(** A computation without effect that may raise, a read of the world,
    a system call (which leaves the world alone when it fails), and an
    update that cannot fail. *)
Definition pure {A} (r : result A) : M A := λ w, (w, r).
Definition ask {A} (f : world → A) : M A := λ w, (w, Ok (f w)).
Definition call (f : world → result world) : M unit :=
  λ w, match f w with
       | Ok w' => (w', Ok tt)
       | Raise e => (w, Raise e)
       end.
Definition update (f : world → world) : M unit := λ w, (f w, Ok tt).

Notation "x <- m ;; k" := (mbind m (λ x, k))
  (at level 100, m at next level, right associativity, only parsing).
Notation "m ;;; k" := (mbind m (λ _, k))
  (at level 100, right associativity, only parsing).

Definition blobpath : str :=
  str_of_string
    "https://openaipublic.blob.core.windows.net/encodings/cl100k_base.tiktoken".

Definition target_path : string := "./cl100k_base.tiktoken".

(** [hashlib.sha1(url.encode()).hexdigest()] *)
Definition cache_key_of (url : str) : result string :=
  let* octets := Utf8.encode url in
  Ok (Sha1.hexdigest octets).

Definition cache_key : result string := cache_key_of blobpath.

(** [__file__] is the path the interpreter was given for the script. *)
Definition script_dir (file : string) (w : world) : string :=
  dirname (abspath (getcwd w) file).

Definition cache_dir (file : string) (w : world) : string :=
  join (script_dir file w) "cache".

Definition link_path (file : string) (w : world) : result string :=
  let* key := cache_key in
  Ok (join (cache_dir file w) key).

(** Lines 7 to 10: the cache directory and the setting the library
    reads. *)
Definition ensure_cache_directory (file : string) : M unit :=
  cache_dir <- ask (cache_dir file) ;;
  makedirs cache_dir ;;;
  update (setenv "TIKTOKEN_CACHE_DIR" cache_dir).

(** Lines 12 to 19: the entry named by the cache key. *)
Definition ensure_cache_link (file : string) : M unit :=
  link_path <- mbind (ask (link_path file)) pure ;;
  found <- ask (λ w, exists_ w link_path) ;;
  if negb found then call (symlink target_path link_path) else ret tt.

Definition prime (file : string) : M unit :=
  ensure_cache_directory file ;;;
  ensure_cache_link file.

Definition print (n : nat) : string := Pyint.repr n +:+ String "010" "".

Section Main.

(** [tiktoken.get_encoding('cl100k_base').encode(text)], with the
    import before it: what the library answers in a given world (it
    finds its cache through the environment and the file system), as
    a token sequence or the exception it raises.  The library is
    consulted as a reader: what it may write back into its own cache
    after a download is outside the script. *)
Variable tiktoken_encode : world → str → result (list Z).

(** The whole script, standard input already read as text.  The
    value is the text written to standard output. *)
Definition main (file : string) (stdin : str) : M string :=
  prime file ;;;
  tokens <- mbind (ask (λ w, tiktoken_encode w stdin)) pure ;;
  ret (print (length tokens)).

End Main.

(** What the parent process sees. *)
Definition exit_code {A} (r : result A) : Z :=
  match r with Ok _ => 0 | Raise _ => 1 end.

Definition stdout (r : result string) : string :=
  match r with Ok out => out | Raise _ => "" end.

(** A later run of the tool, started the way the first one was, finds
    the files the first run left but its own working directory and
    environment. *)
Definition respawn (before after : world) : world :=
  World (root after) (cwd before) (environ before).

End Tokencount.

(** ** Vocabulary of the statements *)
Module Notions.

Import Posixpath Fs Tokencount.
#[local] Open Scope string_scope.

Fixpoint string_forall (P : ascii → bool) (s : string) : bool :=
  match s with
  | EmptyString => true
  | String c s' => P c && string_forall P s'
  end.

(** One of [0-9a-f]. *)
Definition lower_hex (c : ascii) : bool :=
  let n := nat_of_ascii c in
  ((48 <=? n) && (n <=? 57) || (97 <=? n) && (n <=? 102))%nat.

Fixpoint no_sep (s : string) : bool :=
  match s with
  | EmptyString => true
  | String c s' => negb (is_sep c) && no_sep s'
  end.

(** A name: what one directory entry can be called. *)
Definition is_name (s : string) : Prop :=
  no_sep s = true ∧ s ≠ "" ∧ s ≠ "." ∧ s ≠ "..".

(** The head [split] gives for a path with a name joined on. *)
Definition head_of (a : string) : string :=
  if all_sep a then a else rstrip_sep a.

(** Two nodes of one kind: a walk cannot tell them apart. *)
Definition same_kind (a b : node) : Prop :=
  match a, b with
  | Dir wr _, Dir wr' _ => wr = wr'
  | File d, File d' => d = d'
  | Symlink target, Symlink target' => target = target'
  | _, _ => False
  end.

(** What a walk with a given budget does at a link. *)
Definition follow_of (links : nat) (t : node)
  : location → list string → result (nat * location) :=
  match links with
  | O => λ _ _, Raise LoopError
  | S links' => walk links' t
  end.

(** The walk over the names of a path. *)
Definition dir_walk (w : world) (a : string) : result (nat * location) :=
  walk MAXSYMLINKS (root w) (start w a) (components a).

(** A code point [str.encode()] accepts: a Unicode scalar value. *)
Definition scalar_value (c : Z) : Prop :=
  (0 ≤ c < 0x110000)%Z ∧ ¬ (0xD800 ≤ c ≤ 0xDFFF)%Z.

(** The cache key of the fixed URL, and the name the link text ends in. *)
Definition KEY : string := "9b5ad71b2ce5302211f9c61530b329a4922fc6a4".
Definition vocabulary_name : string := "cl100k_base.tiktoken".

(** The cache is primed: the entry under the cache key resolves. *)
Definition primed (file : string) (w : world) : bool :=
  match link_path file w with
  | Ok link_path => exists_ w link_path
  | Raise _ => false
  end.

End Notions.

(** ** Sample worlds *)
Module Samples.
Import Posixpath Fs Tokencount Notions.
#[local] Open Scope string_scope.

Definition sample_file : string := "/opt/tokencount/tokencount.py".
Definition vocabulary : bytes := [73; 81; 61; 61; 32; 48; 10]%Z.

(** [/opt/tokencount] holding the script and [extra]. *)
Definition installed (writable : bool) (extra : gmap string node) : node :=
  Dir true
    {[ "opt" :=
         Dir true
           {[ "tokencount" :=
                Dir writable (<["tokencount.py" := File []]> extra) ]} ]}.

Definition in_home (t : node) : world := World t ["home"; "user"] ∅.

(** The vocabulary next to the script, no cache directory yet. *)
Definition clean_world : world :=
  in_home (installed true {[ "cl100k_base.tiktoken" := File vocabulary ]}).

(** The vocabulary inside the cache directory, no entry under the key. *)
Definition vendored_world : world :=
  in_home (installed true
    {[ "cache" := Dir true {[ "cl100k_base.tiktoken" := File vocabulary ]} ]}).

(** An entry under the key whose target is gone. *)
Definition stale_world : world :=
  in_home (installed true
    {[ "cl100k_base.tiktoken" := File vocabulary;
       "cache" := Dir true {[ KEY := Symlink target_path ]} ]}).

(** The tool directory refuses new entries. *)
Definition readonly_world : world := in_home (installed false ∅).

(** A regular file sits where the cache directory should be. *)
Definition blocked_world : world :=
  in_home (installed true {[ "cache" := File [] ]}).

(** A stand-in for the library: it wants the vocabulary as a regular
    file behind the entry named by the key in the directory the
    environment names, and yields one token per code point. *)
Definition sample_encode (w : world) (text : str) : result (list Z) :=
  match environ w !! "TIKTOKEN_CACHE_DIR" with
  | None => Raise (LibraryError 1)
  | Some dir =>
      match stat w (join dir KEY) with
      | Ok loc =>
          match get (root w) loc with
          | Some (File _) => Ok text
          | _ => Raise (LibraryError 2)
          end
      | Raise _ => Raise (LibraryError 3)
      end
  end.

Definition hello : str := str_of_string "hello world".

End Samples.

(** ** Further vocabulary *)
Module Further.

Import Posixpath Fs Tokencount Notions Samples.
#[local] Open Scope string_scope.

(** A tree grown from another by new entries under free names. *)
Inductive grows : node → node → Prop :=
| grows_refl t : grows t t
| grows_step t d name n t' :
    get t (d ++ [name])%list = None →
    grows (add_entry t d name n) t' →
    grows t t'.

(** Whether the directory a path leads to takes new entries. *)
Definition writable_dir (w : world) (path : string) : bool :=
  match stat w path with
  | Ok loc =>
      match get (root w) loc with
      | Some (Dir wr _) => wr
      | _ => false
      end
  | Raise _ => false
  end.

(** Reading a key back: the value of a hexadecimal digit and the octets
    of a hexadecimal string. *)
Definition hexvalue (c : ascii) : option Z :=
  let n := Z.of_nat (nat_of_ascii c) in
  (if (48 <=? n) && (n <=? 57) then Some (n - 48)
   else if (97 <=? n) && (n <=? 102) then Some (n - 87)
   else None)%Z.

Fixpoint unhex (s : string) : option bytes :=
  match s with
  | EmptyString => Some []
  | String c1 (String c2 s') =>
      match hexvalue c1, hexvalue c2, unhex s' with
      | Some hi, Some lo, Some bs => Some ((16 * hi + lo)%Z :: bs)
      | _, _, _ => None
      end
  | String _ EmptyString => None
  end.

(** The library's own cache file under the key: a regular file. *)
Definition cached_world : world :=
  in_home (installed true
    {[ "cache" := Dir true {[ KEY := File vocabulary ]} ]}).

(** The vocabulary inside a cache directory that refuses entries. *)
Definition sealed_world : world :=
  in_home (installed true
    {[ "cache" := Dir false {[ "cl100k_base.tiktoken" := File vocabulary ]} ]}).

(** The entry under the key is a link to itself. *)
Definition looping_world : world :=
  in_home (installed true
    {[ "cache" := Dir true {[ KEY := Symlink KEY ]} ]}).

End Further.

(** ** Reading UTF-8 back *)
Module Utf8Back.

(** The low [bits] bits of an octet. *)
Definition low (bits b : Z) : Z := b mod 2 ^ bits.

(** The code points a sequence of octets spells: the first octet of a
    group tells how many continuation octets follow. *)
Fixpoint decode (bs : bytes) : option str :=
  match bs with
  | [] => Some []
  | b0 :: r0 =>
      if b0 <? 0x80 then cons b0 <$> decode r0
      else
        match r0 with
        | [] => None
        | b1 :: r1 =>
            if b0 <? 0xE0 then
              cons (low 5 b0 * 64 + low 6 b1) <$> decode r1
            else
              match r1 with
              | [] => None
              | b2 :: r2 =>
                  if b0 <? 0xF0 then
                    cons ((low 4 b0 * 64 + low 6 b1) * 64 + low 6 b2)
                      <$> decode r2
                  else
                    match r2 with
                    | [] => None
                    | b3 :: r3 =>
                        cons (((low 3 b0 * 64 + low 6 b1) * 64 + low 6 b2) * 64
                              + low 6 b3)
                          <$> decode r3
                    end
              end
        end
  end%Z.

End Utf8Back.

(** ** The library as a collaborator that writes

    [Tokencount.main] asks the library as a reader of the world, which
    is what a statement about the script's own steps or about the printed
    count needs.  The library's loader also keeps the cache it is pointed
    to: on a miss it fetches the vocabulary and moves the file it wrote
    onto the name the key gives.  A statement about the files a whole run
    leaves is made on [run], where the library answers with a world of
    its own. *)
Module Collaborator.

Import Posixpath Fs Tokencount Notions Samples.
#[local] Open Scope string_scope.

Section Run.

(** [tiktoken.get_encoding('cl100k_base').encode(text)] with what it
    does to the files. *)
Variable tiktoken : world → str → world * result (list Z).

(** Lines 7 to 19, then line 23. *)
Definition run (file : string) (stdin : str) : M string :=
  prime file ;;;
  tokens <- (λ w, tiktoken w stdin) ;;
  ret (print (length tokens)).

End Run.

(** A library that only reads. *)
Definition reader (tiktoken_encode : world → str → result (list Z))
  : world → str → world * result (list Z) :=
  λ w text, (w, tiktoken_encode w text).

(** A stand-in for the loader with the network at hand.  An entry under
    the key that resolves is read as [sample_encode] reads it.  On a miss
    the vocabulary is fetched, written next to the key and renamed onto
    it: the name then leads to that regular file, whatever it led to
    before ([os.rename] does not follow a link in its way). *)
Definition sample_fetch (fetched : bytes) (w : world) (text : str)
  : world * result (list Z) :=
  match environ w !! "TIKTOKEN_CACHE_DIR" with
  | None => (w, Raise (LibraryError 1))
  | Some dir =>
      if exists_ w (join dir KEY) then (w, sample_encode w text)
      else
        match slot w (join dir KEY) with
        | Ok (d, name) =>
            match get (root w) d with
            | Some (Dir true _) =>
                (World (add_entry (root w) d name (File fetched))
                       (cwd w) (environ w),
                 Ok text)
            | _ => (w, Raise PermissionError)
            end
        | Raise e => (w, Raise e)
        end
  end.

End Collaborator.

(** ** Facts about paths as strings *)
Module PathFacts.
Import Posixpath Notions.
#[local] Open Scope string_scope.

Lemma append_nil_l (s : string) : "" +:+ s = s.
Proof. reflexivity. Qed.

Lemma append_cons (c : ascii) (s t : string) :
  String c s +:+ t = String c (s +:+ t).
Proof. reflexivity. Qed.

Lemma append_nil_r (s : string) : s +:+ "" = s.
Proof.
  induction s as [|c s IH]; [done |]. by rewrite append_cons, IH.
Qed.

Lemma append_assoc (a b c : string) : (a +:+ b) +:+ c = a +:+ (b +:+ c).
Proof.
  induction a as [|x a IH]; [done |]. by rewrite !append_cons, IH.
Qed.

Lemma fields_not_nil (s : string) : fields s ≠ [].
Proof.
  induction s as [|c s IH]; simpl; [done |].
  destruct (is_sep c); [done |]. by destruct (fields s).
Qed.

Lemma fields_no_sep (s : string) : no_sep s = true → fields s = [s].
Proof.
  induction s as [|c s IH]; simpl; [done |].
  intros [Hc Hs]%andb_prop. apply negb_true_iff in Hc. rewrite Hc.
  by rewrite (IH Hs).
Qed.

Lemma fields_app_sep (a b : string) :
  fields (a +:+ String "/" b) = (fields a ++ fields b)%list.
Proof.
  induction a as [|c a IH]; [done |].
  rewrite append_cons. simpl. rewrite IH. destruct (is_sep c); [done |].
  pose proof (fields_not_nil a). by destruct (fields a).
Qed.

Lemma components_app_sep (a b : string) :
  components (a +:+ String "/" b) = (components a ++ components b)%list.
Proof. unfold components. by rewrite fields_app_sep, filter_app. Qed.

Lemma components_name (s : string) :
  no_sep s = true → s ≠ "" → components s = [s].
Proof.
  intros Hs Hne. unfold components. rewrite (fields_no_sep _ Hs).
  by rewrite filter_cons_True.
Qed.

Lemma components_empty : components "" = [].
Proof. reflexivity. Qed.

Lemma endswith_sep_inv (a : string) :
  endswith_sep a = true → ∃ a', a = a' +:+ "/".
Proof.
  induction a as [|c a IH]; simpl; [done |].
  destruct a as [|c' a].
  - unfold is_sep. intros ->%Ascii.eqb_eq. by exists "".
  - intros [a' Ha']%IH. exists (String c a'). by rewrite append_cons, <- Ha'.
Qed.

Lemma isabs_app (a b : string) : a ≠ "" → isabs (a +:+ b) = isabs a.
Proof. by destruct a. Qed.

Lemma is_empty_true (a : string) : is_empty a = true ↔ a = "".
Proof. by destruct a. Qed.

Lemma is_empty_false (a : string) : is_empty a = false ↔ a ≠ "".
Proof. by destruct a. Qed.

Lemma isabs_name (b : string) : no_sep b = true → isabs b = false.
Proof. destruct b as [|c b]; simpl; [done |]. intros [H _]%andb_prop. by apply negb_true_iff. Qed.

(** Joining a name onto a directory path. *)
Lemma join_name_cases (a b : string) :
  no_sep b = true →
  (a = "" ∧ join a b = b)
  ∨ (∃ a', a = a' +:+ "/" ∧ join a b = a' +:+ String "/" b)
  ∨ (a ≠ "" ∧ endswith_sep a = false ∧ join a b = a +:+ String "/" b).
Proof.
  intros Hb. unfold join. rewrite (isabs_name _ Hb).
  destruct a as [|c a]; [by left | right].
  change (is_empty (String c a)) with false. rewrite orb_false_l.
  destruct (endswith_sep (String c a)) eqn:He.
  - left. destruct (endswith_sep_inv _ He) as [a' Ha']. exists a'.
    split; [done |]. rewrite Ha'. by rewrite append_assoc.
  - right. done.
Qed.

Lemma components_join (a b : string) :
  no_sep b = true → b ≠ "" →
  components (join a b) = (components a ++ [b])%list.
Proof.
  intros Hb Hne.
  destruct (join_name_cases a b Hb) as [[-> ->] | [(a' & -> & ->) | (_ & _ & ->)]].
  - rewrite components_empty. by rewrite (components_name b).
  - change (a' +:+ "/") with (a' +:+ String "/" "").
    rewrite !components_app_sep, components_empty, app_nil_r.
    by rewrite (components_name b).
  - by rewrite components_app_sep, (components_name b).
Qed.

Lemma isabs_join (a b : string) :
  no_sep b = true → isabs (join a b) = isabs a.
Proof.
  intros Hb.
  destruct (join_name_cases a b Hb) as [[-> ->] | [(a' & -> & ->) | (Ha & _ & ->)]].
  - by apply isabs_name.
  - by destruct a'.
  - by destruct a.
Qed.

Lemma is_empty_join (a b : string) :
  no_sep b = true → b ≠ "" → is_empty (join a b) = false.
Proof.
  intros Hb Hne.
  destruct (join_name_cases a b Hb) as [[-> ->] | [(a' & -> & ->) | (Ha & _ & ->)]].
  - by destruct b.
  - by destruct a'.
  - by destruct a.
Qed.

Lemma endswith_sep_app_name (a b : string) :
  no_sep b = true → b ≠ "" → endswith_sep (a +:+ b) = false.
Proof.
  intros Hb Hne. induction a as [|c a IH]; rewrite ?append_cons; simpl.
  - rewrite append_nil_l. clear Hne. induction b as [|c b IH]; simpl; [done |].
    simpl in Hb. apply andb_prop in Hb as [Hc Hb]. apply negb_true_iff in Hc.
    destruct b; [done | by apply IH].
  - destruct (a +:+ b) eqn:E; [| done].
    destruct a; [rewrite append_nil_l in E; by subst | done].
Qed.

(** A name joined onto a non-empty path that does not end in a
    separator is appended behind one separator. *)
Lemma join_name_sep (a b : string) :
  no_sep b = true → a ≠ "" → endswith_sep a = false →
  join a b = a +:+ String "/" b.
Proof.
  intros Hb Ha He. unfold join. rewrite (isabs_name _ Hb), He.
  by destruct a.
Qed.

Lemma endswith_sep_join (a b : string) :
  no_sep b = true → b ≠ "" → endswith_sep (join a b) = false.
Proof.
  intros Hb Hne.
  destruct (join_name_cases a b Hb) as [[-> ->] | [(a' & -> & ->) | (Ha & _ & ->)]].
  - by apply (endswith_sep_app_name "").
  - change (String "/" b) with ("/" +:+ b). rewrite <- append_assoc.
    by apply endswith_sep_app_name.
  - change (String "/" b) with ("/" +:+ b). rewrite <- append_assoc.
    by apply endswith_sep_app_name.
Qed.

(** *** [split] *)

Lemma rsplit_name (b : string) : no_sep b = true → rsplit b = ("", b).
Proof.
  induction b as [|c b IH]; simpl; [done |].
  intros [Hc Hb]%andb_prop. apply negb_true_iff in Hc.
  by rewrite (IH Hb), Hc.
Qed.

Lemma rsplit_app_sep (a b : string) :
  no_sep b = true → rsplit (a +:+ String "/" b) = (a +:+ "/", b).
Proof.
  intros Hb. induction a as [|c a IH].
  - rewrite !append_nil_l. simpl. by rewrite (rsplit_name _ Hb).
  - rewrite !append_cons. simpl. rewrite IH.
    replace (is_empty (a +:+ "/")) with false by (by destruct a).
    by rewrite orb_true_r.
Qed.

Lemma rsplit_length (s : string) :
  (String.length (rsplit s).1 + String.length (rsplit s).2 = String.length s)%nat.
Proof.
  induction s as [|c s IH]; simpl; [done |].
  destruct (rsplit s) as [h t]. simpl in IH.
  destruct (is_sep c || negb (is_empty h)) eqn:E; simpl; [lia |].
  apply orb_false_iff in E as [_ E]. apply negb_false_iff in E.
  destruct h; [simpl in *; lia | done].
Qed.

Lemma rstrip_sep_empty (a : string) : is_empty (rstrip_sep a) = all_sep a.
Proof.
  induction a as [|c a IH]; simpl; [done |].
  rewrite <- IH. destruct (is_sep c), (rstrip_sep a); done.
Qed.

Lemma rstrip_sep_length (a : string) :
  (String.length (rstrip_sep a) ≤ String.length a)%nat.
Proof.
  induction a as [|c a IH]; simpl; [done |].
  destruct (is_sep c && is_empty (rstrip_sep a)); simpl; lia.
Qed.

Lemma rstrip_sep_decomp (a : string) :
  ∃ t, a = rstrip_sep a +:+ t ∧ all_sep t = true.
Proof.
  induction a as [|c a (t & Ht & Hall)]; simpl; [by exists "" |].
  destruct (is_sep c && is_empty (rstrip_sep a)) eqn:E.
  - apply andb_prop in E as [Hc Hr]. apply is_empty_true in Hr.
    rewrite Hr, append_nil_l in Ht. subst a.
    exists (String c t). rewrite append_nil_l. simpl. by rewrite Hc, Hall.
  - exists t. rewrite append_cons. by rewrite <- Ht.
Qed.

Lemma components_all_sep (t : string) : all_sep t = true → components t = [].
Proof.
  induction t as [|c t IH]; simpl; [done |].
  intros [Hc Ht]%andb_prop. unfold is_sep in Hc. apply Ascii.eqb_eq in Hc as ->.
  change (String "/" t) with ("" +:+ String "/" t).
  by rewrite components_app_sep, (IH Ht).
Qed.

Lemma components_app_all_sep (a t : string) :
  all_sep t = true → components (a +:+ t) = components a.
Proof.
  intros Ht. destruct t as [|c t]; [by rewrite append_nil_r |].
  simpl in Ht. apply andb_prop in Ht as [Hc Ht].
  unfold is_sep in Hc. apply Ascii.eqb_eq in Hc as ->.
  by rewrite components_app_sep, (components_all_sep _ Ht), app_nil_r.
Qed.

Lemma components_rstrip_sep (a : string) :
  components (rstrip_sep a) = components a.
Proof.
  destruct (rstrip_sep_decomp a) as (t & Ht & Hall).
  rewrite Ht at 2. by rewrite components_app_all_sep.
Qed.

Lemma isabs_rstrip_sep (a : string) :
  all_sep a = false → isabs (rstrip_sep a) = isabs a.
Proof.
  destruct a as [|c a]; simpl; [done |].
  rewrite rstrip_sep_empty.
  destruct (is_sep c) eqn:Hc, (all_sep a); simpl; rewrite ?Hc; done.
Qed.

Lemma rstrip_sep_app_sep (a : string) :
  rstrip_sep (a +:+ "/") = rstrip_sep a.
Proof.
  induction a as [|c a IH]; [done |].
  rewrite append_cons. simpl. by rewrite IH.
Qed.

Lemma all_sep_app_sep (a : string) : all_sep (a +:+ "/") = all_sep a.
Proof.
  induction a as [|c a IH]; [done |].
  rewrite append_cons. simpl. by rewrite IH.
Qed.

Lemma all_sep_endswith (a : string) :
  a ≠ "" → all_sep a = true → endswith_sep a = true.
Proof.
  induction a as [|c a IH]; [done |]. simpl.
  intros _ [Hc Ha]%andb_prop. destruct a; [done |]. by apply IH.
Qed.

Lemma head_of_empty (a : string) : is_empty (head_of a) = is_empty a.
Proof.
  unfold head_of. destruct (all_sep a) eqn:E; [done |].
  rewrite rstrip_sep_empty, E. by destruct a.
Qed.

Lemma head_of_isabs (a : string) : isabs (head_of a) = isabs a.
Proof.
  unfold head_of. destruct (all_sep a) eqn:E; [done |].
  by apply isabs_rstrip_sep.
Qed.

Lemma head_of_components (a : string) : components (head_of a) = components a.
Proof.
  unfold head_of. destruct (all_sep a); [done |]. apply components_rstrip_sep.
Qed.

Lemma split_join_name (a b : string) :
  no_sep b = true → split (join a b) = (head_of a, b).
Proof.
  intros Hb. unfold split, head_of.
  destruct (join_name_cases a b Hb) as [[-> ->] | [(a' & -> & ->) | (Ha & He & ->)]].
  - by rewrite (rsplit_name _ Hb).
  - rewrite (rsplit_app_sep _ _ Hb).
    replace (is_empty (a' +:+ "/")) with false by (by destruct a').
    simpl. by destruct (all_sep (a' +:+ "/")).
  - rewrite (rsplit_app_sep _ _ Hb).
    replace (is_empty (a +:+ "/")) with false by (by destruct a).
    rewrite all_sep_app_sep, rstrip_sep_app_sep.
    destruct (all_sep a) eqn:E; [| done].
    rewrite (all_sep_endswith _ Ha E) in He. done.
Qed.

Lemma split_length (p : string) :
  (String.length (split p).1 + String.length (split p).2 ≤ String.length p)%nat.
Proof.
  unfold split. pose proof (rsplit_length p) as H.
  destruct (rsplit p) as [h t]. simpl in *.
  destruct (negb (is_empty h) && negb (all_sep h)); [| lia].
  pose proof (rstrip_sep_length h). lia.
Qed.

End PathFacts.

(** ** Facts about the directory tree and the path walk *)
Module FsFacts.
Import Posixpath Fs Notions PathFacts.
#[local] Open Scope string_scope.

Lemma get_app (t : node) (a b : location) :
  get t (a ++ b)%list = get t a ≫= λ t', get t' b.
Proof.
  revert t. induction a as [|c a IH]; intros t; simpl; [done |].
  destruct t as [wr es | |]; [| done | done].
  destruct (es !! c); [apply IH | done].
Qed.

Lemma get_snoc (t : node) (cur : location) (c : string) wr es :
  get t cur = Some (Dir wr es) → get t (cur ++ [c])%list = es !! c.
Proof.
  intros H. rewrite get_app, H. simpl. by destruct (es !! c).
Qed.

Lemma same_kind_refl (a : node) : same_kind a a.
Proof. by destruct a. Qed.

Lemma same_kind_add_entry t d name n : same_kind t (add_entry t d name n).
Proof.
  destruct t as [wr es | |], d as [|c d]; simpl; try done.
  by destruct (es !! c).
Qed.

Lemma add_entry_cons wr es c d name n :
  add_entry (Dir wr es) (c :: d) name n
  = match es !! c with
    | Some t' => Dir wr (<[c := add_entry t' d name n]> es)
    | None => Dir wr es
    end.
Proof. reflexivity. Qed.

(** Adding an entry under a free name keeps every node there was, up to
    what lies below it. *)
Lemma get_add_entry_kind t d name n loc x :
  get t (d ++ [name])%list = None →
  get t loc = Some x →
  ∃ x', get (add_entry t d name n) loc = Some x' ∧ same_kind x x'.
Proof.
  revert t d x. induction loc as [|c loc IH]; intros t d x Hfree Hget.
  - simpl in Hget. injection Hget as <-. eexists. split; [done |].
    apply same_kind_add_entry.
  - simpl in Hget. destruct t as [wr es | |]; [| done | done].
    destruct (es !! c) as [t1|] eqn:Hc; [| done].
    destruct d as [|c' d].
    + simpl in Hfree. simpl.
      destruct (decide (name = c)) as [-> | Hne].
      * rewrite Hc in Hfree. done.
      * rewrite lookup_insert_ne by done. rewrite Hc.
        exists x. split; [done | apply same_kind_refl].
    + rewrite add_entry_cons.
      destruct (es !! c') as [t2|] eqn:Hc'.
      * simpl. destruct (decide (c' = c)) as [-> | Hne].
        -- rewrite lookup_insert_eq. rewrite Hc in Hc'. injection Hc' as <-.
           apply IH; [| done]. simpl in Hfree. by rewrite Hc in Hfree.
        -- rewrite lookup_insert_ne by done. rewrite Hc.
           exists x. split; [done | apply same_kind_refl].
      * simpl. rewrite Hc. exists x. split; [done | apply same_kind_refl].
Qed.

Lemma get_add_entry_dir t d name n wr es :
  get t d = Some (Dir wr es) →
  get (add_entry t d name n) d = Some (Dir wr (<[name := n]> es)).
Proof.
  revert t. induction d as [|c d IH]; intros t Hget.
  - simpl in Hget. injection Hget as ->. done.
  - simpl in Hget. destruct t as [wr0 es0 | |]; [| done | done].
    destruct (es0 !! c) as [t1|] eqn:Hc; [| done].
    rewrite add_entry_cons, Hc. simpl. rewrite lookup_insert_eq. by apply IH.
Qed.

Lemma get_add_entry_new t d name n wr es :
  get t d = Some (Dir wr es) →
  get (add_entry t d name n) (d ++ [name])%list = Some n.
Proof.
  intros H. rewrite (get_snoc _ _ _ wr (<[name := n]> es)).
  - apply lookup_insert_eq.
  - by apply get_add_entry_dir.
Qed.

(** *** The walk, one name at a time *)

Lemma walk_nil links t cur : walk links t cur [] = Ok (links, cur).
Proof. by destruct links. Qed.

Lemma walk_cons links t cur c rest :
  walk links t cur (c :: rest)
  = match get t cur with
    | Some (Dir _ es) =>
        if bool_decide (c = ".") then walk links t cur rest
        else if bool_decide (c = "..") then walk links t (parent cur) rest
        else
          match es !! c with
          | None => Raise FileNotFoundError
          | Some (Symlink target) =>
              follow_of links t (if isabs target then [] else cur)
                        (components target ++ rest)%list
          | Some _ => walk links t (cur ++ [c])%list rest
          end
    | Some _ => Raise NotADirectoryError
    | None => Raise FileNotFoundError
    end.
Proof. by destruct links. Qed.

#[global] Opaque walk.

(** Walking [a ++ b] is walking [a], then [b] from where [a] led, on
    what is left of the budget. *)
Lemma walk_app links t :
  ∀ a cur b,
    walk links t cur (a ++ b)%list
    = bind (walk links t cur a) (λ r, walk r.1 t r.2 b).
Proof.
  induction links as [|links IHl].
  - induction a as [|c a IHa]; intros cur b.
    + by rewrite walk_nil.
    + rewrite <- app_comm_cons, !walk_cons.
      destruct (get t cur) as [[wr es | |]|]; try done.
      repeat case_bool_decide; try apply IHa.
      destruct (es !! c) as [[| |]|]; try done; apply IHa.
  - induction a as [|c a IHa]; intros cur b.
    + by rewrite walk_nil.
    + rewrite <- app_comm_cons, !walk_cons.
      destruct (get t cur) as [[wr es | |]|]; try done.
      repeat case_bool_decide; try apply IHa.
      destruct (es !! c) as [[| |]|]; try done; try apply IHa.
      simpl. rewrite app_assoc. apply IHl.
Qed.

Lemma walk_more_budget links t :
  ∀ a cur left loc,
    walk links t cur a = Ok (left, loc) →
    walk (S links) t cur a = Ok (S left, loc).
Proof.
  induction links as [|links IHl].
  - induction a as [|c a IHa]; intros cur left loc.
    + rewrite !walk_nil. by intros [= <- <-].
    + rewrite !walk_cons.
      destruct (get t cur) as [[wr es | |]|]; try done.
      repeat case_bool_decide; try apply IHa.
      destruct (es !! c) as [[| |]|]; try done; apply IHa.
  - induction a as [|c a IHa]; intros cur left loc.
    + rewrite !walk_nil. by intros [= <- <-].
    + rewrite !(walk_cons _ _ _ c).
      destruct (get t cur) as [[wr es | |]|]; try done.
      repeat case_bool_decide; try apply IHa.
      destruct (es !! c) as [[| |]|]; try done; try apply IHa.
      simpl. apply IHl.
Qed.

Lemma walk_budget_le links t :
  ∀ a cur left loc, walk links t cur a = Ok (left, loc) → (left ≤ links)%nat.
Proof.
  induction links as [|links IHl].
  - induction a as [|c a IHa]; intros cur left loc.
    + rewrite !walk_nil. intros [= <- <-]. lia.
    + rewrite !walk_cons.
      destruct (get t cur) as [[wr es | |]|]; try done.
      repeat case_bool_decide; try apply IHa.
      destruct (es !! c) as [[| |]|]; try done; apply IHa.
  - induction a as [|c a IHa]; intros cur left loc.
    + rewrite !walk_nil. intros [= <- <-]. lia.
    + rewrite !(walk_cons _ _ _ c).
      destruct (get t cur) as [[wr es | |]|]; try done.
      repeat case_bool_decide; try apply IHa.
      destruct (es !! c) as [[| |]|]; try done; try apply IHa.
      simpl. intros Hle%IHl. lia.
Qed.

Lemma walk_less_budget links t :
  ∀ a cur left loc,
    walk (S links) t cur a = Ok (S left, loc) →
    walk links t cur a = Ok (left, loc).
Proof.
  induction links as [|links IHl].
  - induction a as [|c a IHa]; intros cur left loc.
    + rewrite !walk_nil. by intros [= <- <-].
    + rewrite !(walk_cons _ _ _ c).
      destruct (get t cur) as [[wr es | |]|]; try done.
      repeat case_bool_decide; try apply IHa.
      destruct (es !! c) as [[| |]|]; try done; try apply IHa.
      simpl. intros Hle%walk_budget_le. lia.
  - induction a as [|c a IHa]; intros cur left loc.
    + rewrite !walk_nil. by intros [= <- <-].
    + rewrite !(walk_cons _ _ _ c).
      destruct (get t cur) as [[wr es | |]|]; try done.
      repeat case_bool_decide; try apply IHa.
      destruct (es !! c) as [[| |]|]; try done; try apply IHa.
      simpl. apply IHl.
Qed.

(** A walk that succeeds never looked at a free name, so it succeeds
    the same way once the name is taken. *)
Lemma walk_add_entry t d name n :
  get t (d ++ [name])%list = None →
  ∀ links a cur r,
    walk links t cur a = Ok r →
    walk links (add_entry t d name n) cur a = Ok r.
Proof.
  intros Hfree.
  induction links as [|links IHl].
  - induction a as [|c a IHa]; intros cur r.
    + by rewrite !walk_nil.
    + rewrite !walk_cons.
      destruct (get t cur) as [[wr es | |]|] eqn:Hcur; try done.
      destruct (get_add_entry_kind t d name n cur _ Hfree Hcur) as (x' & Hcur' & Hk).
      rewrite Hcur'. destruct x' as [wr' es' | |]; try done.
      repeat case_bool_decide; try apply IHa.
      rewrite <- (get_snoc _ _ c _ _ Hcur).
      destruct (get t (cur ++ [c])%list) as [y|] eqn:Hy; [| done].
      destruct (get_add_entry_kind t d name n _ _ Hfree Hy) as (y' & Hy' & Hky).
      rewrite <- (get_snoc _ _ c _ _ Hcur').
      rewrite Hy'.
      destruct y, y'; try done; try apply IHa.
  - induction a as [|c a IHa]; intros cur r.
    + by rewrite !walk_nil.
    + rewrite !(walk_cons _ _ _ c).
      destruct (get t cur) as [[wr es | |]|] eqn:Hcur; try done.
      destruct (get_add_entry_kind t d name n cur _ Hfree Hcur) as (x' & Hcur' & Hk).
      rewrite Hcur'. destruct x' as [wr' es' | |]; try done.
      repeat case_bool_decide; try apply IHa.
      rewrite <- (get_snoc _ _ c _ _ Hcur).
      destruct (get t (cur ++ [c])%list) as [y|] eqn:Hy; [| done].
      destruct (get_add_entry_kind t d name n _ _ Hfree Hy) as (y' & Hy' & Hky).
      rewrite <- (get_snoc _ _ c _ _ Hcur').
      rewrite Hy'.
      destruct y, y'; try done; try apply IHa.
      simpl in Hky. subst. simpl. apply IHl.
Qed.

End FsFacts.

(** ** Facts about the system calls *)
Module CallFacts.
Import Posixpath Fs Notions PathFacts FsFacts.
#[local] Open Scope string_scope.

Lemma split_last_snoc (l : list string) (x : string) :
  split_last (l ++ [x])%list = Some (l, x).
Proof.
  unfold split_last. rewrite last_snoc. by rewrite removelast_last.
Qed.

Lemma start_join w a b : no_sep b = true → start w (join a b) = start w a.
Proof. intros Hb. unfold start. by rewrite isabs_join. Qed.

Lemma stat_eq w a :
  stat w a = if is_empty a then Raise FileNotFoundError
             else bind (dir_walk w a) (λ r, Ok r.2).
Proof. reflexivity. Qed.

(** One step into a name that is neither [.] nor [..]. *)
Lemma walk_name links t cur b wr es :
  b ≠ "." → b ≠ ".." →
  get t cur = Some (Dir wr es) →
  walk links t cur [b]
  = match es !! b with
    | None => Raise FileNotFoundError
    | Some (Symlink target) =>
        follow_of links t (if isabs target then [] else cur)
                  (components target ++ [])%list
    | Some _ => Ok (links, (cur ++ [b])%list)
    end.
Proof.
  intros H1 H2 Hcur. rewrite walk_cons, Hcur.
  rewrite !bool_decide_eq_false_2 by done.
  destruct (es !! b) as [[| |]|]; by rewrite ?walk_nil.
Qed.

Lemma walk_name_ok links t cur b r :
  walk links t cur [b] = Ok r →
  ∃ wr es, get t cur = Some (Dir wr es).
Proof.
  rewrite walk_cons. destruct (get t cur) as [[wr es | |]|]; try done.
  eauto.
Qed.

Lemma dir_walk_join w a b :
  is_name b →
  dir_walk w (join a b)
  = bind (dir_walk w a) (λ r, walk r.1 (root w) r.2 [b]).
Proof.
  intros (Hb & Hne & _). unfold dir_walk.
  rewrite components_join, start_join by done. apply walk_app.
Qed.

Lemma slot_join w a b :
  is_name b →
  slot w (join a b)
  = bind (dir_walk w a) (λ r,
      match get (root w) r.2 with
      | Some (Dir _ _) => Ok (r.2, b)
      | Some _ => Raise NotADirectoryError
      | None => Raise FileNotFoundError
      end).
Proof.
  intros (Hb & Hne & _). unfold slot.
  rewrite is_empty_join, components_join, split_last_snoc, start_join by done.
  reflexivity.
Qed.

(** A path below a name exists only if the path up to the name leads
    to a directory holding the name. *)
Lemma stat_join_inv w a b loc :
  is_name b →
  stat w (join a b) = Ok loc →
  ∃ left d wr es y,
    dir_walk w a = Ok (left, d)
    ∧ get (root w) d = Some (Dir wr es)
    ∧ es !! b = Some y.
Proof.
  intros Hn. rewrite stat_eq, dir_walk_join by done.
  destruct Hn as (Hb & Hne & Hd & Hdd).
  rewrite is_empty_join by done.
  destruct (dir_walk w a) as [[left d]|] eqn:Ha; [| done]. simpl.
  destruct (walk left (root w) d [b]) as [r|] eqn:Hw; [| done].
  destruct (walk_name_ok _ _ _ _ _ Hw) as (wr & es & Hget).
  rewrite (walk_name _ _ _ _ wr es) in Hw by done.
  destruct (es !! b) as [y|] eqn:Hy; [| done].
  intros _. by exists left, d, wr, es, y.
Qed.

Lemma create_join w a b n :
  is_name b →
  create (join a b) n w
  = bind (dir_walk w a) (λ r,
      match get (root w) r.2 with
      | Some (Dir wr es) =>
          match es !! b with
          | Some _ => Raise FileExistsError
          | None =>
              if wr then
                Ok (World (add_entry (root w) r.2 b n) (cwd w) (environ w))
              else Raise PermissionError
          end
      | Some _ => Raise NotADirectoryError
      | None => Raise FileNotFoundError
      end).
Proof.
  intros Hn. unfold create. rewrite slot_join by done.
  destruct Hn as (Hb & Hne & Hd & Hdd).
  destruct (dir_walk w a) as [[left d]|]; [| done]. simpl.
  destruct (get (root w) d) as [[wr es | |]|] eqn:Hget; try done. simpl.
  rewrite !bool_decide_eq_false_2 by done. simpl. by rewrite Hget.
Qed.

Lemma create_taken w a b n left d wr es y :
  is_name b →
  dir_walk w a = Ok (left, d) →
  get (root w) d = Some (Dir wr es) →
  es !! b = Some y →
  create (join a b) n w = Raise FileExistsError.
Proof.
  intros Hn Ha Hget Hy. rewrite create_join, Ha by done. simpl.
  by rewrite Hget, Hy.
Qed.

(** What a successful creation did. *)
Lemma create_ok w a b n w' :
  is_name b →
  create (join a b) n w = Ok w' →
  ∃ left d es,
    dir_walk w a = Ok (left, d)
    ∧ get (root w) d = Some (Dir true es)
    ∧ es !! b = None
    ∧ w' = World (add_entry (root w) d b n) (cwd w) (environ w).
Proof.
  intros Hn. rewrite create_join by done.
  destruct (dir_walk w a) as [[left d]|]; [| done]. simpl.
  destruct (get (root w) d) as [[wr es | |]|] eqn:Hget; try done.
  destruct (es !! b) eqn:Hb; [done |]. destruct wr; [| done].
  intros [= <-]. by exists left, d, es.
Qed.

(** The path up to the name still leads where it led. *)
Lemma dir_walk_created w a b n left d es :
  dir_walk w a = Ok (left, d) →
  get (root w) d = Some (Dir true es) →
  es !! b = None →
  let w' := World (add_entry (root w) d b n) (cwd w) (environ w) in
  dir_walk w' a = Ok (left, d)
  ∧ get (root w') d = Some (Dir true (<[b := n]> es))
  ∧ get (root w') (d ++ [b])%list = Some n.
Proof.
  intros Ha Hget Hb w'. split; [| split].
  - unfold dir_walk, w'. simpl. apply walk_add_entry; [| done].
    by rewrite (get_snoc _ _ _ _ _ Hget).
  - by apply get_add_entry_dir.
  - by eapply get_add_entry_new.
Qed.

Lemma isdir_join w a b left d wr es wr' es' :
  is_name b →
  dir_walk w a = Ok (left, d) →
  get (root w) d = Some (Dir wr es) →
  es !! b = Some (Dir wr' es') →
  stat w (join a b) = Ok (d ++ [b])%list ∧ isdir w (join a b) = true.
Proof.
  intros Hn Ha Hget Hb.
  assert (Hs : stat w (join a b) = Ok (d ++ [b])%list).
  { rewrite stat_eq, dir_walk_join, Ha by done.
    destruct Hn as (Hnb & Hne & Hd & Hdd).
    rewrite is_empty_join by done. simpl.
    by rewrite (walk_name _ _ _ _ _ _ Hd Hdd Hget), Hb. }
  split; [done |]. unfold isdir. rewrite Hs.
  by rewrite (get_snoc _ _ _ _ _ Hget), Hb.
Qed.

Lemma dir_walk_join_dir w a b left d wr es wr' es' :
  is_name b →
  dir_walk w a = Ok (left, d) →
  get (root w) d = Some (Dir wr es) →
  es !! b = Some (Dir wr' es') →
  dir_walk w (join a b) = Ok (left, (d ++ [b])%list).
Proof.
  intros Hn Ha Hget Hb. rewrite dir_walk_join, Ha by done.
  destruct Hn as (Hnb & Hne & Hd & Hdd). simpl.
  by rewrite (walk_name _ _ _ _ _ _ Hd Hdd Hget), Hb.
Qed.

Lemma isdir_exists w p : isdir w p = true → exists_ w p = true.
Proof. unfold isdir, exists_. by destruct (stat w p). Qed.

(** *** [makedirs] *)

Lemma makedirs_fuel_unfold fuel name w :
  makedirs_fuel fuel name w
  = let '(head, tail) := split name in
    let '(head, tail) := if is_empty tail then split head else (head, tail) in
    let '(w1, r1, stop) :=
      if negb (is_empty head) && negb (is_empty tail) && negb (exists_ w head)
      then
        let '(w', r') :=
          match fuel with
          | O => (w, Ok tt)
          | S fuel' => makedirs_fuel fuel' head w
          end in
        let r'' :=
          match r' with
          | Raise FileExistsError => Ok tt
          | _ => r'
          end in
        (w', r'', bool_decide (tail = "."))
      else (w, Ok tt, false) in
    match r1 with
    | Raise e => (w1, Raise e)
    | Ok _ =>
        if stop then (w1, Ok tt)
        else
          match mkdir name w1 with
          | Ok w2 => (w2, Ok tt)
          | Raise e => if isdir w1 name then (w1, Ok tt) else (w1, Raise e)
          end
    end.
Proof. by destruct fuel. Qed.

(** The length of the name is fuel enough for [makedirs]: more fuel
    gives the same answer. *)
Lemma makedirs_fuel_enough (fuel : nat) :
  ∀ name w,
    (String.length name ≤ fuel)%nat →
    makedirs_fuel fuel name w = makedirs name w.
Proof.
  unfold makedirs.
  induction fuel as [fuel IH] using lt_wf_ind. intros name w Hlen.
  rewrite (makedirs_fuel_unfold fuel), (makedirs_fuel_unfold (String.length name)).
  pose proof (split_length name) as H1.
  destruct (split name) as [h0 t0]. simpl in H1.
  assert (∃ head tail,
            (if is_empty t0 then split h0 else (h0, t0)) = (head, tail)
            ∧ (String.length head + String.length tail
               ≤ String.length name)%nat) as (head & tail & -> & H2).
  { destruct (is_empty t0).
    - pose proof (split_length h0) as H3.
      destruct (split h0) as [h1 t1]. simpl in H3.
      exists h1, t1. split; [done | lia].
    - exists h0, t0. split; [done | lia]. }
  destruct (negb (is_empty head) && negb (is_empty tail) && negb (exists_ w head))
    eqn:Hc; [| done].
  apply andb_prop in Hc as [[Hh Ht]%andb_prop _].
  apply negb_true_iff, is_empty_false in Hh, Ht.
  assert (String.length head < String.length name)%nat as Hlt.
  { destruct tail; [done |]. simpl in H2. lia. }
  assert (1 ≤ String.length head)%nat as Hpos.
  { destruct head; [done |]. simpl. lia. }
  destruct fuel as [|fuel]; [lia |].
  destruct (String.length name) as [|n] eqn:Hn; [lia |].
  rewrite (IH fuel) by lia. rewrite (IH n) by lia. done.
Qed.

Lemma makedirs_fuel_join fuel a b w :
  is_name b →
  makedirs_fuel fuel (join a b) w
  = let '(w1, r1) :=
      if negb (is_empty (head_of a)) && negb (exists_ w (head_of a)) then
        let '(w', r') :=
          match fuel with
          | O => (w, Ok tt)
          | S fuel' => makedirs_fuel fuel' (head_of a) w
          end in
        (w', match r' with Raise FileExistsError => Ok tt | _ => r' end)
      else (w, Ok tt) in
    match r1 with
    | Raise e => (w1, Raise e)
    | Ok _ =>
        match mkdir (join a b) w1 with
        | Ok w2 => (w2, Ok tt)
        | Raise e =>
            if isdir w1 (join a b) then (w1, Ok tt) else (w1, Raise e)
        end
    end.
Proof.
  intros (Hb & Hne & Hd & Hdd).
  rewrite makedirs_fuel_unfold, split_join_name by done.
  assert (Hbe : is_empty b = false) by (by destruct b).
  cbv beta iota. rewrite Hbe. cbv beta iota. rewrite Hbe.
  change (negb false) with true. rewrite andb_true_r.

  destruct (negb (is_empty (head_of a)) && negb (exists_ w (head_of a))); [| done].
  destruct (match fuel with O => _ | S _ => _ end) as [w' r'].
  rewrite bool_decide_eq_false_2 by done.
  by destruct r' as [|[]].
Qed.

Lemma exists_head_of w a left d :
  dir_walk w a = Ok (left, d) →
  negb (is_empty (head_of a)) && negb (exists_ w (head_of a)) = false.
Proof.
  intros Ha. destruct (is_empty (head_of a)) eqn:He; [done |]. simpl.
  unfold exists_. rewrite stat_eq, He. unfold dir_walk, start.
  rewrite head_of_isabs, head_of_components.
  unfold dir_walk, start in Ha. by rewrite Ha.
Qed.

(** With the directory in place [makedirs] changes nothing. *)
Lemma makedirs_fuel_isdir fuel w a b :
  is_name b →
  isdir w (join a b) = true →
  makedirs_fuel fuel (join a b) w = (w, Ok tt).
Proof.
  intros Hn Hdir. rewrite makedirs_fuel_join by done.
  assert (∃ loc, stat w (join a b) = Ok loc) as [loc Hs].
  { unfold isdir in Hdir. destruct (stat w (join a b)); [eauto | done]. }
  destruct (stat_join_inv _ _ _ _ Hn Hs) as (left & d & wr & es & y & Ha & Hget & Hy).
  rewrite (exists_head_of _ _ _ _ Ha).
  unfold mkdir. rewrite (create_taken _ _ _ _ _ _ _ _ _ Hn Ha Hget Hy).
  by rewrite Hdir.
Qed.

(** When [makedirs] succeeds the directory is there. *)
Lemma mkdir_isdir w a b w' :
  is_name b →
  mkdir (join a b) w = Ok w' →
  isdir w' (join a b) = true.
Proof.
  intros Hn Hmk. unfold mkdir in Hmk.
  destruct (create_ok _ _ _ _ _ Hn Hmk) as (left & d & es & Ha & Hget & Hb & ->).
  destruct (dir_walk_created _ _ _ (Dir true ∅) _ _ _ Ha Hget Hb) as (Ha' & Hget' & _).
  eapply isdir_join; [done | apply Ha' | apply Hget' | apply lookup_insert_eq].
Qed.

Lemma makedirs_fuel_ok fuel w a b w' :
  is_name b →
  makedirs_fuel fuel (join a b) w = (w', Ok tt) →
  isdir w' (join a b) = true.
Proof.
  intros Hn. rewrite makedirs_fuel_join by done.
  destruct (if negb _ && negb _ then _ else _) as [w1 [[]|e]]; [| done].
  destruct (mkdir (join a b) w1) as [w2|e] eqn:Hmk.
  - intros [= <-]. by eapply mkdir_isdir.
  - destruct (isdir w1 (join a b)) eqn:Hd; [| done]. by intros [= <-].
Qed.

(** Neither call touches the working directory or the environment. *)
Lemma create_proc p n w w' :
  create p n w = Ok w' → cwd w' = cwd w ∧ environ w' = environ w.
Proof.
  unfold create. destruct (slot w p) as [[d name]|]; [| done]. simpl.
  destruct (_ || _); [done |].
  destruct (get (root w) d) as [[wr es | |]|]; try done.
  destruct (es !! name); [done |]. destruct wr; [| done].
  by intros [= <-].
Qed.

Lemma makedirs_fuel_proc fuel :
  ∀ name w w' r,
    makedirs_fuel fuel name w = (w', r) →
    cwd w' = cwd w ∧ environ w' = environ w.
Proof.
  induction fuel as [|fuel IH]; intros name w w' r; simpl.
  - destruct (split name) as [h0 t0].
    destruct (if is_empty t0 then split h0 else (h0, t0)) as [head tail].
    destruct (negb (is_empty head) && negb (is_empty tail) && negb (exists_ w head)).
    + destruct (bool_decide (tail = ".")); [by intros [= <- <-] |].
      destruct (mkdir name w) as [w2|e] eqn:Hmk.
      * intros [= <- <-]. by eapply create_proc.
      * destruct (isdir w name); by intros [= <- <-].
    + destruct (mkdir name w) as [w2|e] eqn:Hmk.
      * intros [= <- <-]. by eapply create_proc.
      * destruct (isdir w name); by intros [= <- <-].
  - destruct (split name) as [h0 t0].
    destruct (if is_empty t0 then split h0 else (h0, t0)) as [head tail].
    destruct (negb (is_empty head) && negb (is_empty tail) && negb (exists_ w head)).
    + destruct (makedirs_fuel fuel head w) as [w1 r1] eqn:Hrec.
      apply IH in Hrec as [Hc He].
      assert (∀ w'' r'', (match mkdir name w1 with
                | Ok w2 => (w2, Ok tt)
                | Raise e => if isdir w1 name then (w1, Ok tt) else (w1, Raise e)
                end) = (w'', r'') → cwd w'' = cwd w ∧ environ w'' = environ w) as Hm.
      { intros w'' r''. destruct (mkdir name w1) as [w2|e] eqn:Hmk.
        - intros [= <- <-]. apply create_proc in Hmk as [-> ->]. done.
        - destruct (isdir w1 name); by intros [= <- <-]. }
      destruct r1 as [[]|[]]; try (by intros [= <- <-]);
        destruct (bool_decide (tail = ".")); try (by intros [= <- <-]); apply Hm.
    + destruct (mkdir name w) as [w2|e] eqn:Hmk.
      * intros [= <- <-]. by eapply create_proc.
      * destruct (isdir w name); by intros [= <- <-].
Qed.

End CallFacts.

(** ** Facts about the decimal rendering *)
Module PyintFacts.
Import Pyint Notions PathFacts.
#[local] Open Scope string_scope.
#[local] Open Scope nat_scope.

Lemma digit_is_digit (d : nat) : d < 10 → is_digit (digit d) = true.
Proof.
  intros Hd. unfold is_digit, digit.
  rewrite nat_ascii_embedding by lia.
  apply andb_true_intro. split; apply Nat.leb_le; lia.
Qed.

Lemma digit_value (d : nat) : d < 10 → nat_of_ascii (digit d) - 48 = d.
Proof. intros Hd. unfold digit. rewrite nat_ascii_embedding by lia. lia. Qed.

Lemma string_forall_app P (a b : string) :
  string_forall P (a +:+ b) = string_forall P a && string_forall P b.
Proof.
  induction a as [|c a IH]; [done |].
  rewrite append_cons. simpl. by rewrite IH, andb_assoc.
Qed.

Lemma length_app (a b : string) :
  String.length (a +:+ b) = String.length a + String.length b.
Proof.
  induction a as [|c a IH]; [done |]. rewrite append_cons. simpl. by rewrite IH.
Qed.

Lemma digits_S fuel n acc :
  digits (S fuel) n acc
  = if n <? 10 then String (digit (n mod 10)) acc
    else digits fuel (n / 10) (String (digit (n mod 10)) acc).
Proof. reflexivity. Qed.

Lemma value_from_cons a c s :
  value_from a (String c s)
  = if is_digit c then value_from (10 * a + (nat_of_ascii c - 48)) s else None.
Proof. reflexivity. Qed.

Lemma string_forall_one P c : string_forall P (String c "") = P c.
Proof. simpl. apply andb_true_r. Qed.

Lemma length_one c : String.length (String c "") = 1.
Proof. reflexivity. Qed.

Lemma digit_inj (d : nat) : d < 10 → d ≠ 0 → digit d ≠ digit 0.
Proof.
  intros Hd Hnz Heq. apply (f_equal nat_of_ascii) in Heq. unfold digit in Heq.
  rewrite (nat_ascii_embedding (48 + d)) in Heq by lia.
  rewrite (nat_ascii_embedding (48 + 0)) in Heq by lia. lia.
Qed.

#[local] Opaque digit is_digit Nat.modulo Nat.div Nat.pow.

(** What [digits] writes in front of [acc]. *)
Lemma digits_spec (fuel : nat) :
  ∀ n acc, n < fuel →
    ∃ ds, digits fuel n acc = ds +:+ acc
          ∧ ds ≠ ""
          ∧ string_forall is_digit ds = true
          ∧ (n ≠ 0 → ∃ c rest, ds = String c rest ∧ c ≠ digit 0)
          ∧ ∀ a s, value_from a (ds +:+ s)
                   = value_from (a * 10 ^ String.length ds + n) s.
Proof.
  induction fuel as [|fuel IH]; intros n acc Hn; [lia |]. rewrite digits_S.
  assert (Hmod : n mod 10 < 10) by (apply Nat.mod_upper_bound; lia).
  destruct (n <? 10) eqn:Hlt.
  - apply Nat.ltb_lt in Hlt. rewrite Nat.mod_small by lia.
    exists (String (digit n) "").
    split; [reflexivity |]. split; [discriminate |].
    split; [rewrite string_forall_one; by apply digit_is_digit |].
    split.
    + intros Hnz. exists (digit n), "". split; [reflexivity |].
      by apply digit_inj.
    + intros a s. rewrite append_cons, append_nil_l, value_from_cons.
      rewrite digit_is_digit, digit_value by lia. f_equal.
      rewrite length_one, Nat.pow_1_r. lia.
  - apply Nat.ltb_ge in Hlt.
    assert (Hdiv : n / 10 < fuel).
    { pose proof (Nat.div_lt n 10). lia. }
    destruct (IH (n / 10) (String (digit (n mod 10)) acc) Hdiv)
      as (ds & Heq & Hne & Hall & Hlead & Hval).
    exists (ds +:+ String (digit (n mod 10)) "").
    split; [rewrite Heq, append_assoc; by rewrite append_cons, append_nil_l |].
    split; [destruct ds; [by destruct Hne | discriminate] |].
    split.
    { rewrite string_forall_app, Hall, string_forall_one.
      by rewrite digit_is_digit. }
    split.
    + intros _. destruct Hlead as (c & rest & -> & Hc).
      { intros H0. apply Nat.div_small_iff in H0; lia. }
      exists c, (rest +:+ String (digit (n mod 10)) "").
      split; [by rewrite append_cons | exact Hc].
    + intros a s. rewrite append_assoc, append_cons, append_nil_l, Hval.
      rewrite value_from_cons, digit_is_digit, digit_value by lia.
      f_equal. rewrite length_app, length_one, Nat.pow_add_r, Nat.pow_1_r.
      pose proof (Nat.div_mod_eq n 10). nia.
Qed.

Lemma repr_spec (n : nat) :
  repr n ≠ ""
  ∧ string_forall is_digit (repr n) = true
  ∧ value (repr n) = Some n
  ∧ (n ≠ 0 → ∃ c rest, repr n = String c rest ∧ c ≠ digit 0).
Proof.
  unfold repr.
  destruct (digits_spec (S n) n "" ltac:(lia)) as (ds & -> & Hne & Hall & Hlead & Hval).
  rewrite append_nil_r.
  split; [exact Hne |]. split; [exact Hall |]. split; [| exact Hlead].
  unfold value. destruct ds as [|c ds]; [by destruct Hne |].
  specialize (Hval 0 ""). rewrite append_nil_r in Hval. rewrite Hval.
  f_equal.
Qed.

Lemma repr_zero : repr 0 = "0".
Proof. reflexivity. Qed.

End PyintFacts.

(** ** Facts about the hexadecimal digest *)
Module Sha1Facts.
Import Sha1 Posixpath Notions PathFacts.
#[local] Open Scope string_scope.

(** The blocks of a message are the message: the fuel of [chunks] is
    enough. *)
Lemma chunks_concat {A} (size : nat) :
  (0 < size)%nat →
  ∀ fuel (l : list A), (length l ≤ fuel)%nat →
    concat (chunks fuel size l) = l.
Proof.
  intros Hsize. induction fuel as [|fuel IH]; intros l Hl.
  - destruct l; [done | simpl in Hl; lia].
  - destruct l as [|a l]; [done |].
    change (chunks (S fuel) size (a :: l))
      with (take size (a :: l) :: chunks fuel size (drop size (a :: l))).
    rewrite concat_cons, IH.
    + apply take_drop.
    + rewrite length_drop. simpl in *. lia.
Qed.

Lemma hexdigit_lower (n : Z) : lower_hex (hexdigit n) = true.
Proof.
  destruct n as [|p|p]; [done | | done].
  do 4 (destruct p as [p|p|]; try reflexivity).
Qed.

Lemma hex_lower (bs : bytes) : string_forall lower_hex (hex bs) = true.
Proof.
  induction bs as [|b bs IH]; simpl; [done |].
  by rewrite !hexdigit_lower, IH.
Qed.

Lemma hex_length (bs : bytes) : String.length (hex bs) = (2 * length bs)%nat.
Proof. induction bs as [|b bs IH]; simpl; [done |]. rewrite IH. lia. Qed.

Lemma digest_length (msg : bytes) : length (digest msg) = 20%nat.
Proof. reflexivity. Qed.

Lemma hexdigest_length (msg : bytes) : String.length (hexdigest msg) = 40%nat.
Proof. unfold hexdigest. rewrite hex_length, digest_length. reflexivity. Qed.

Lemma lower_hex_not_sep (c : ascii) : lower_hex c = true → is_sep c = false.
Proof.
  intros H. unfold is_sep. apply Ascii.eqb_neq. intros ->. done.
Qed.

Lemma lower_hex_no_sep (s : string) :
  string_forall lower_hex s = true → no_sep s = true.
Proof.
  induction s as [|c s IH]; simpl; [done |].
  intros [Hc Hs]%andb_prop. by rewrite (lower_hex_not_sep _ Hc), IH.
Qed.

Lemma lower_hex_not_dot (c : ascii) : lower_hex c = true → c ≠ "."%char.
Proof. by intros H ->. Qed.

(** Text made of scalar values has an encoding, so it has a key. *)
Lemma encode_scalar_values (s : str) :
  Forall scalar_value s → ∃ octets, Utf8.encode s = Ok octets.
Proof.
  induction 1 as [|c s [Hrange Hsur] _ [octets IH]]; [by exists [] |].
  cbn [Utf8.encode]. unfold Utf8.encode_char.
  destruct (c <? 0)%Z eqn:H0; [apply Z.ltb_lt in H0; lia |].
  rewrite IH.
  destruct (c <? 128)%Z; [by eexists |].
  destruct (c <? 2048)%Z; [by eexists |].
  destruct (c <? 65536)%Z.
  - destruct ((55296 <=? c)%Z && (c <=? 57343)%Z) eqn:Hs; [| by eexists].
    apply andb_prop in Hs as [H1%Z.leb_le H2%Z.leb_le]. lia.
  - destruct (c <? 1114112)%Z eqn:Hmax; [by eexists |].
    apply Z.ltb_ge in Hmax. lia.
Qed.

Lemma cache_key_of_defined (url : str) :
  Forall scalar_value url → ∃ key, Tokencount.cache_key_of url = Ok key.
Proof.
  intros [octets H]%encode_scalar_values. unfold Tokencount.cache_key_of.
  rewrite H. by eexists.
Qed.

(** A digest is a name. *)
Lemma hexdigest_is_name (msg : bytes) : is_name (hexdigest msg).
Proof.
  pose proof (hexdigest_length msg) as Hlen.
  pose proof (hex_lower (digest msg)) as Hlow. fold (hexdigest msg) in Hlow.
  split; [by apply lower_hex_no_sep |].
  repeat split; intros Heq; rewrite Heq in Hlen; discriminate.
Qed.

End Sha1Facts.

(** ** Facts about the script *)
Module ScriptFacts.
Import Posixpath Fs Tokencount Notions PathFacts FsFacts CallFacts.
#[local] Open Scope string_scope.

Lemma cache_key_eq : cache_key = Ok KEY.
Proof. vm_compute. reflexivity. Qed.

Lemma KEY_is_name : is_name KEY.
Proof. repeat split; discriminate. Qed.

Lemma cache_is_name : is_name "cache".
Proof. repeat split; discriminate. Qed.

#[local] Hint Resolve KEY_is_name cache_is_name : core.

Lemma link_path_eq file w :
  link_path file w = Ok (join (cache_dir file w) KEY).
Proof. unfold link_path. by rewrite cache_key_eq. Qed.

Lemma cache_dir_nonempty file w : is_empty (cache_dir file w) = false.
Proof. apply is_empty_join; [done | discriminate]. Qed.

(** *** The script, stage by stage *)

Lemma ensure_cache_directory_eq file w :
  ensure_cache_directory file w
  = match makedirs (cache_dir file w) w with
    | (w1, Ok _) =>
        (setenv "TIKTOKEN_CACHE_DIR" (cache_dir file w) w1, Ok tt)
    | (w1, Raise e) => (w1, Raise e)
    end.
Proof.
  unfold ensure_cache_directory, mbind, ask, update.
  by destruct (makedirs (cache_dir file w) w) as [w1 [[]|e]].
Qed.

Lemma ensure_cache_link_eq file w :
  ensure_cache_link file w
  = if exists_ w (join (cache_dir file w) KEY) then (w, Ok tt)
    else
      match symlink target_path (join (cache_dir file w) KEY) w with
      | Ok w' => (w', Ok tt)
      | Raise e => (w, Raise e)
      end.
Proof.
  unfold ensure_cache_link, mbind, ask, pure, call, ret.
  rewrite link_path_eq.
  by destruct (exists_ w (join (cache_dir file w) KEY)).
Qed.

Lemma prime_eq file w :
  prime file w
  = match ensure_cache_directory file w with
    | (w1, Ok _) => ensure_cache_link file w1
    | (w1, Raise e) => (w1, Raise e)
    end.
Proof. reflexivity. Qed.

Lemma main_eq tok file stdin w :
  main tok file stdin w
  = match prime file w with
    | (w1, Ok _) =>
        match tok w1 stdin with
        | Ok tokens => (w1, Ok (print (length tokens)))
        | Raise e => (w1, Raise e)
        end
    | (w1, Raise e) => (w1, Raise e)
    end.
Proof.
  unfold main, mbind, ask, pure, ret.
  destruct (prime file w) as [w1 [[]|e]]; [| done].
  by destruct (tok w1 stdin).
Qed.

(** *** What depends on what *)

Lemma cache_dir_cwd file w w' :
  cwd w' = cwd w → cache_dir file w' = cache_dir file w.
Proof. intros H. unfold cache_dir, script_dir, getcwd. by rewrite H. Qed.

Lemma dir_walk_proc w w' p :
  root w' = root w → cwd w' = cwd w → dir_walk w' p = dir_walk w p.
Proof. intros Hr Hc. unfold dir_walk, start. by rewrite Hr, Hc. Qed.

Lemma stat_proc w w' p :
  root w' = root w → cwd w' = cwd w → stat w' p = stat w p.
Proof. intros Hr Hc. rewrite !stat_eq. by rewrite (dir_walk_proc w w'). Qed.

Lemma exists_proc w w' p :
  root w' = root w → cwd w' = cwd w → exists_ w' p = exists_ w p.
Proof. intros Hr Hc. unfold exists_. by rewrite (stat_proc w w'). Qed.

Lemma isdir_proc w w' p :
  root w' = root w → cwd w' = cwd w → isdir w' p = isdir w p.
Proof. intros Hr Hc. unfold isdir. by rewrite (stat_proc w w'), Hr. Qed.

Lemma world_eta w r c e :
  root w = r → cwd w = c → environ w = e → w = World r c e.
Proof. destruct w. simpl. by intros -> -> ->. Qed.

(** *** The cache directory *)

Lemma exists_link_isdir file w :
  exists_ w (join (cache_dir file w) KEY) = true →
  isdir w (cache_dir file w) = true.
Proof.
  unfold exists_. destruct (stat w (join _ KEY)) as [loc|] eqn:Hs; [| done].
  intros _.
  destruct (stat_join_inv _ _ _ _ KEY_is_name Hs)
    as (left & d & wr & es & y & Ha & Hget & Hy).
  unfold isdir. rewrite stat_eq, cache_dir_nonempty, Ha. simpl.
  by rewrite Hget.
Qed.

Lemma makedirs_isdir file w :
  isdir w (cache_dir file w) = true →
  makedirs (cache_dir file w) w = (w, Ok tt).
Proof. intros H. unfold makedirs. by apply makedirs_fuel_isdir. Qed.

Lemma makedirs_ok file w w' :
  makedirs (cache_dir file w) w = (w', Ok tt) →
  isdir w' (cache_dir file w) = true.
Proof. unfold makedirs. by apply makedirs_fuel_ok. Qed.

(** With the entry in place the stages change nothing but the
    environment. *)
Lemma prime_primed file w :
  exists_ w (join (cache_dir file w) KEY) = true →
  prime file w
  = (setenv "TIKTOKEN_CACHE_DIR" (cache_dir file w) w, Ok tt).
Proof.
  intros He. rewrite prime_eq, ensure_cache_directory_eq.
  rewrite (makedirs_isdir _ _ (exists_link_isdir _ _ He)).
  rewrite ensure_cache_link_eq.
  change (cache_dir file (setenv _ _ w)) with (cache_dir file w).
  change (exists_ (setenv "TIKTOKEN_CACHE_DIR" (cache_dir file w) w)
                  (join (cache_dir file w) KEY))
    with (exists_ w (join (cache_dir file w) KEY)).
  by rewrite He.
Qed.

Lemma symlink_proc target p w w' :
  symlink target p w = Ok w' → cwd w' = cwd w ∧ environ w' = environ w.
Proof.
  unfold symlink. destruct (is_empty target); [done |]. apply create_proc.
Qed.

Lemma ensure_cache_directory_proc file w w' :
  ensure_cache_directory file w = (w', Ok tt) →
  cwd w' = cwd w
  ∧ environ w' = <["TIKTOKEN_CACHE_DIR" := cache_dir file w]> (environ w)
  ∧ isdir w' (cache_dir file w) = true.
Proof.
  rewrite ensure_cache_directory_eq.
  destruct (makedirs (cache_dir file w) w) as [w1 [[]|e]] eqn:Hmk; [| done].
  intros [= <-]. simpl.
  destruct (makedirs_fuel_proc _ _ _ _ _ Hmk) as [-> ->].
  split; [done |]. split; [done |].
  apply makedirs_ok in Hmk.
  by rewrite (isdir_proc w1).
Qed.

(** What a successful priming leaves in the process. *)
Lemma prime_proc file w w' :
  prime file w = (w', Ok tt) →
  cwd w' = cwd w
  ∧ environ w' = <["TIKTOKEN_CACHE_DIR" := cache_dir file w]> (environ w).
Proof.
  rewrite prime_eq.
  destruct (ensure_cache_directory file w) as [w1 [[]|e]] eqn:H1; [| done].
  apply ensure_cache_directory_proc in H1 as (Hc & He & _).
  rewrite ensure_cache_link_eq.
  destruct (exists_ w1 _); [by intros [= <-] |].
  destruct (symlink _ _ w1) as [w2|] eqn:Hs; [| done].
  intros [= <-]. apply symlink_proc in Hs as [-> ->]. done.
Qed.

(** The two ways the last stage succeeds. *)
Lemma ensure_cache_link_cases file w w' :
  ensure_cache_link file w = (w', Ok tt) →
  (exists_ w (join (cache_dir file w) KEY) = true ∧ w' = w)
  ∨ (exists_ w (join (cache_dir file w) KEY) = false
     ∧ ∃ left d es,
         dir_walk w (cache_dir file w) = Ok (left, d)
         ∧ get (root w) d = Some (Dir true es)
         ∧ es !! KEY = None
         ∧ w' = World (add_entry (root w) d KEY (Symlink target_path))
                      (cwd w) (environ w)).
Proof.
  rewrite ensure_cache_link_eq.
  destruct (exists_ w _) eqn:He; [intros [= <-]; by left |].
  destruct (symlink _ _ w) as [w2|] eqn:Hs; [| done].
  intros [= <-]. right. split; [done |].
  unfold symlink in Hs. simpl in Hs.
  by apply create_ok in Hs.
Qed.

(** A link the script made and that leads nowhere stops the next run. *)
Lemma prime_after_link file w left d es v :
  dir_walk w (cache_dir file w) = Ok (left, d) →
  get (root w) d = Some (Dir true es) →
  es !! KEY = None →
  root v = add_entry (root w) d KEY (Symlink target_path) →
  cwd v = cwd w →
  exists_ v (join (cache_dir file v) KEY) = false →
  prime file v
  = (setenv "TIKTOKEN_CACHE_DIR" (cache_dir file v) v, Raise FileExistsError).
Proof.
  intros Ha Hget Hfree Hr Hc He.
  assert (Hcd : cache_dir file w = cache_dir file v)
    by (symmetry; by apply cache_dir_cwd).
  rewrite Hcd in Ha.
  destruct (dir_walk_created _ _ KEY (Symlink target_path) _ _ _ Ha Hget Hfree)
    as (Ha' & Hget' & _).
  set (w' := World _ _ _) in *.
  assert (Hav : dir_walk v (cache_dir file v) = Ok (left, d)).
  { by rewrite (dir_walk_proc w' v). }
  assert (Hgv : get (root v) d
                = Some (Dir true (<[KEY := Symlink target_path]> es))).
  { by rewrite Hr. }
  assert (Hdir : isdir v (cache_dir file v) = true).
  { unfold isdir. rewrite stat_eq, cache_dir_nonempty, Hav. simpl.
    by rewrite Hgv. }
  rewrite prime_eq, ensure_cache_directory_eq, (makedirs_isdir _ _ Hdir).
  rewrite ensure_cache_link_eq.
  change (cache_dir file (setenv _ _ v)) with (cache_dir file v).
  change (exists_ (setenv "TIKTOKEN_CACHE_DIR" (cache_dir file v) v)
                  (join (cache_dir file v) KEY))
    with (exists_ v (join (cache_dir file v) KEY)).
  rewrite He. unfold symlink. simpl is_empty. cbv iota.
  erewrite create_taken; [done | done | | | apply lookup_insert_eq].
  - exact Hav.
  - exact Hgv.
Qed.

Lemma primed_eq file w :
  primed file w = exists_ w (join (cache_dir file w) KEY).
Proof. unfold primed. by rewrite link_path_eq. Qed.

(** Any entry under the key that does not resolve ends the run in
    [os.symlink]. *)
Lemma prime_unresolved file w n :
  lstat w (join (cache_dir file w) KEY) = Ok n →
  exists_ w (join (cache_dir file w) KEY) = false →
  prime file w
  = (setenv "TIKTOKEN_CACHE_DIR" (cache_dir file w) w, Raise FileExistsError).
Proof.
  intros Hl He. unfold lstat in Hl. rewrite slot_join in Hl by apply KEY_is_name.
  destruct (dir_walk w (cache_dir file w)) as [[left d]|] eqn:Ha; [| done].
  simpl in Hl.
  destruct (get (root w) d) as [[wr es | |]|] eqn:Hget; try done.
  simpl in Hl. rewrite (get_snoc _ _ _ _ _ Hget) in Hl.
  destruct (es !! KEY) as [y|] eqn:Hy; [| done].
  assert (Hdir : isdir w (cache_dir file w) = true).
  { unfold isdir. rewrite stat_eq, cache_dir_nonempty, Ha. simpl.
    by rewrite Hget. }
  rewrite prime_eq, ensure_cache_directory_eq, (makedirs_isdir _ _ Hdir).
  rewrite ensure_cache_link_eq.
  change (cache_dir file (setenv _ _ w)) with (cache_dir file w).
  change (exists_ (setenv "TIKTOKEN_CACHE_DIR" (cache_dir file w) w)
                  (join (cache_dir file w) KEY))
    with (exists_ w (join (cache_dir file w) KEY)).
  rewrite He. unfold symlink. simpl is_empty. cbv iota.
  erewrite create_taken; [done | apply KEY_is_name | exact Ha | exact Hget | exact Hy].
Qed.

(** Priming again what a priming left: with the entry resolving
    nothing changes. *)
Lemma prime_again (file : string) (w0 w1 : world) :
  prime file w0 = (w1, Ok tt) →
  primed file w1 = true →
  prime file (respawn w0 w1) = (w1, Ok tt).
Proof.
  rewrite primed_eq. intros Hp He.
  destruct (prime_proc _ _ _ Hp) as [Hc Henv].
  assert (Hcd : cache_dir file (respawn w0 w1) = cache_dir file w1)
    by (by apply cache_dir_cwd).
  assert (Hcd0 : cache_dir file w1 = cache_dir file w0)
    by (by apply cache_dir_cwd).
  rewrite prime_primed.
  2:{ rewrite Hcd. rewrite (exists_proc w1 (respawn w0 w1)).
      - exact He.
      - reflexivity.
      - symmetry. exact Hc. }
  f_equal. symmetry. apply world_eta; [reflexivity | exact Hc |].
  simpl. by rewrite Hcd, Hcd0.
Qed.

(** With the entry not resolving the second priming dies: either the
    first found nothing under the key and made the link, which is now in
    the way, or it would have died itself. *)
Lemma prime_again_unprimed (file : string) (w0 w1 : world) :
  prime file w0 = (w1, Ok tt) →
  primed file w1 = false →
  (prime file (respawn w0 w1)).2 = Raise FileExistsError.
Proof.
  rewrite primed_eq. intros Hp Hprimed.
  destruct (prime_proc _ _ _ Hp) as [Hc Henv].
  rewrite prime_eq in Hp.
  destruct (ensure_cache_directory file w0) as [wa [[]|e]] eqn:Hd;
    [| discriminate Hp].
  destruct (ensure_cache_directory_proc _ _ _ Hd) as (Hca & _ & _).
  assert (Hcdv : cache_dir file (respawn w0 w1) = cache_dir file w1)
    by (by apply cache_dir_cwd).
  destruct (ensure_cache_link_cases _ _ _ Hp)
    as [[He Hw1] | (He & left & d & es & Ha & Hget & Hfree & Hw1)].
  - subst w1. rewrite He in Hprimed. discriminate Hprimed.
  - assert (Hr : root (respawn w0 w1)
                 = add_entry (root wa) d KEY (Symlink target_path)).
    { change (root (respawn w0 w1)) with (root w1). by rewrite Hw1. }
    assert (Hcw : cwd (respawn w0 w1) = cwd wa).
    { change (cwd (respawn w0 w1)) with (cwd w0). symmetry. exact Hca. }
    assert (Hex : exists_ (respawn w0 w1)
                    (join (cache_dir file (respawn w0 w1)) KEY) = false).
    { rewrite Hcdv. rewrite (exists_proc w1 (respawn w0 w1)).
      - exact Hprimed.
      - reflexivity.
      - symmetry. exact Hc. }
    rewrite (prime_after_link file wa left d es (respawn w0 w1)
               Ha Hget Hfree Hr Hcw Hex).
    reflexivity.
Qed.

(** *** The alias *)

Lemma vocabulary_is_name : is_name vocabulary_name.
Proof. repeat split; discriminate. Qed.

Lemma components_target :
  components target_path = ["."; vocabulary_name].
Proof. by vm_compute. Qed.

Lemma walk_dot links t cur rest wr es :
  get t cur = Some (Dir wr es) →
  walk links t cur ("." :: rest) = walk links t cur rest.
Proof. intros H. by rewrite walk_cons, H. Qed.

(** Through a link to [./name] the walk goes on in the directory of
    the link, one link poorer. *)
Lemma walk_alias links t d es :
  get t d = Some (Dir true es) →
  es !! KEY = Some (Symlink target_path) →
  walk (S links) t d [KEY] = walk links t d [vocabulary_name].
Proof.
  intros Hget Hk. destruct KEY_is_name as (_ & _ & Hd & Hdd).
  rewrite (walk_name _ _ _ _ _ _ Hd Hdd Hget), Hk.
  change (isabs target_path) with false. cbv iota.
  rewrite components_target. simpl.
  by rewrite (walk_dot _ _ _ _ _ _ Hget).
Qed.

Lemma walk_alias_0 t d es :
  get t d = Some (Dir true es) →
  es !! KEY = Some (Symlink target_path) →
  walk 0 t d [KEY] = Raise LoopError.
Proof.
  intros Hget Hk. destruct KEY_is_name as (_ & _ & Hd & Hdd).
  by rewrite (walk_name _ _ _ _ _ _ Hd Hdd Hget), Hk.
Qed.

(** Looking an alias up, in any world that holds one. *)
Lemma alias_lookup (w : world) (dir : string) left d es :
  dir_walk w dir = Ok (left, d) →
  get (root w) d = Some (Dir true es) →
  es !! KEY = Some (Symlink target_path) →
  lstat w (join dir KEY) = Ok (Symlink target_path)
  ∧ ∀ loc,
      stat w (join dir KEY) = Ok loc
      ↔ stat_within (MAXSYMLINKS - 1) w (join dir vocabulary_name) = Ok loc.
Proof.
  intros Ha Hget Hk.
  pose proof KEY_is_name as HK. pose proof vocabulary_is_name as HV.
  split.
  - unfold lstat. rewrite slot_join, Ha by done.
    unfold bind. cbv beta iota. cbn [fst snd]. rewrite Hget.
    destruct HK as (_ & _ & Hd & Hdd).
    rewrite !bool_decide_eq_false_2 by done.
    rewrite orb_false_l. cbv iota. cbn [fst snd].
    rewrite (get_snoc _ _ _ _ _ Hget), Hk. reflexivity.
  - intros loc. rewrite stat_eq.
    replace (is_empty (join dir KEY)) with false
      by (symmetry; apply is_empty_join; [apply HK | discriminate]).
    rewrite dir_walk_join, Ha by done.
    unfold stat_within.
    replace (is_empty (join dir vocabulary_name)) with false
      by (symmetry; apply is_empty_join; [apply HV | discriminate]).
    change (MAXSYMLINKS - 1)%nat with 39%nat.
    rewrite components_join by (apply HV || discriminate).
    rewrite start_join by apply HV.
    rewrite walk_app.
    unfold dir_walk in Ha. change MAXSYMLINKS with 40%nat in Ha.
    unfold bind at 1 2. cbv beta iota. cbn [fst snd].
    split.
    + destruct left as [|left].
      { rewrite (walk_alias_0 _ _ _ Hget Hk). discriminate. }
      rewrite (walk_alias _ _ _ _ Hget Hk).
      rewrite (walk_less_budget _ _ _ _ _ _ Ha).
      unfold bind at 2. cbv beta iota. cbn [fst snd]. tauto.
    + destruct (walk 39 (root w) (start w dir) (components dir))
        as [[left39 d39]|] eqn:H39; [| discriminate].
      unfold bind at 2. cbv beta iota. cbn [fst snd].
      apply walk_more_budget in H39.
      rewrite Ha in H39. injection H39 as -> ->.
      rewrite (walk_alias _ _ _ _ Hget Hk). tauto.
Qed.

(** *** A clean environment *)

(** With the tool's directory there and the cache directory not, the
    stages that succeed leave the cache directory holding the alias
    and nothing else. *)
Lemma prime_clean (file : string) (w w' : world) :
  isdir w (script_dir file w) = true →
  exists_ w (cache_dir file w) = false →
  prime file w = (w', Ok tt) →
  ∃ left d,
    dir_walk w' (cache_dir file w) = Ok (left, d)
    ∧ get (root w') d = Some (Dir true {[ KEY := Symlink target_path ]}).
Proof.
  intros Hsd Hnone Hp.
  pose proof cache_is_name as HC. pose proof KEY_is_name as HK.
  assert (Hnd : isdir w (cache_dir file w) = false).
  { destruct (isdir w (cache_dir file w)) eqn:E; [| reflexivity].
    apply isdir_exists in E. rewrite E in Hnone. discriminate. }
  assert (∃ left0 d0, dir_walk w (script_dir file w) = Ok (left0, d0))
    as (left0 & d0 & Ha0).
  { unfold isdir in Hsd. rewrite stat_eq in Hsd.
    destruct (is_empty (script_dir file w)); [discriminate |].
    destruct (dir_walk w (script_dir file w)) as [[l d]|];
      [by exists l, d | discriminate]. }
  rewrite prime_eq, ensure_cache_directory_eq in Hp.
  unfold makedirs in Hp. unfold cache_dir at 1 2 in Hp.
  rewrite makedirs_fuel_join in Hp by exact HC.
  rewrite (exists_head_of _ _ _ _ Ha0) in Hp.
  fold (cache_dir file w) in Hp.
  destruct (mkdir (cache_dir file w) w) as [w2|e] eqn:Hmk;
    [| rewrite Hnd in Hp; discriminate].
  unfold mkdir in Hmk. unfold cache_dir in Hmk.
  destruct (create_ok _ _ _ _ _ HC Hmk)
    as (left & d & es & Ha & Hget & Hfree & Hw2).
  destruct (dir_walk_created _ _ "cache" (Dir true ∅) _ _ _ Ha Hget Hfree)
    as (Ha2 & Hget2 & Hnew2).
  rewrite <- Hw2 in Ha2, Hget2, Hnew2.
  pose proof (dir_walk_join_dir w2 _ "cache" _ _ _ _ true ∅ HC Ha2 Hget2
                (lookup_insert_eq _ _ _)) as Hcd2.
  fold (cache_dir file w) in Hcd2.
  set (wa := setenv "TIKTOKEN_CACHE_DIR" (cache_dir file w) w2) in Hp.
  assert (Hcwd : cwd wa = cwd w) by (unfold wa; rewrite Hw2; reflexivity).
  assert (Hcda : cache_dir file wa = cache_dir file w)
    by (by apply cache_dir_cwd).
  assert (Hwa : dir_walk wa (cache_dir file w)
                = Ok (left, (d ++ ["cache"])%list)) by exact Hcd2.
  assert (Hga : get (root wa) (d ++ ["cache"])%list = Some (Dir true ∅))
    by exact Hnew2.
  destruct (ensure_cache_link_cases _ _ _ Hp)
    as [[He _] | (_ & left3 & d3 & es3 & Ha3 & Hget3 & Hfree3 & Hw')].
  - exfalso. rewrite Hcda in He. unfold exists_ in He.
    destruct (stat wa (join (cache_dir file w) KEY)) as [loc|] eqn:Hs;
      [| discriminate].
    destruct (stat_join_inv _ _ _ _ HK Hs)
      as (l & d' & wr' & es' & y & Hd' & Hg' & Hy').
    rewrite Hwa in Hd'. injection Hd' as <- <-.
    rewrite Hga in Hg'. injection Hg' as <- <-.
    rewrite lookup_empty in Hy'. discriminate.
  - rewrite Hcda in Ha3. rewrite Hwa in Ha3. injection Ha3 as <- <-.
    rewrite Hga in Hget3. injection Hget3 as <-.
    destruct (dir_walk_created _ _ KEY (Symlink target_path) _ _ _
                Hwa Hga Hfree3) as (Ha4 & Hget4 & _).
    rewrite <- Hw' in Ha4, Hget4.
    exists left, (d ++ ["cache"])%list. split; [exact Ha4 |].
    by rewrite Hget4, insert_empty.
Qed.

End ScriptFacts.

(** ** Facts about the run with a library that writes *)
Module RunFacts.
Import Posixpath Fs Tokencount Notions Samples Collaborator.
Import PathFacts FsFacts CallFacts PyintFacts Sha1Facts ScriptFacts.
#[local] Open Scope string_scope.

Lemma run_eq lib file stdin w :
  run lib file stdin w
  = match prime file w with
    | (w1, Ok _) =>
        match lib w1 stdin with
        | (w2, Ok tokens) => (w2, Ok (print (length tokens)))
        | (w2, Raise e) => (w2, Raise e)
        end
    | (w1, Raise e) => (w1, Raise e)
    end.
Proof.
  unfold run, mbind, ret.
  destruct (prime file w) as [w1 [[]|e]]; [| reflexivity].
  by destruct (lib w1 stdin) as [w2 [tokens|e]].
Qed.

(** [main] is [run] with a library that only reads. *)
Lemma main_run tok file stdin w :
  main tok file stdin w = run (reader tok) file stdin w.
Proof.
  rewrite main_eq, run_eq. unfold reader.
  destruct (prime file w) as [w1 [[]|e]]; [| reflexivity].
  by destruct (tok w1 stdin).
Qed.

(** An alias in a directory without the vocabulary leads nowhere. *)
Lemma alias_dangles (w : world) (dir : string) left d es :
  dir_walk w dir = Ok (left, d) →
  get (root w) d = Some (Dir true es) →
  es !! KEY = Some (Symlink target_path) →
  es !! vocabulary_name = None →
  exists_ w (join dir KEY) = false.
Proof.
  intros Ha Hget Hk Hv.
  pose proof KEY_is_name as HK. pose proof vocabulary_is_name as HV.
  unfold exists_. rewrite stat_eq.
  replace (is_empty (join dir KEY)) with false
    by (symmetry; apply is_empty_join; [apply HK | discriminate]).
  rewrite dir_walk_join, Ha by exact HK.
  unfold bind at 2. cbn [fst snd].
  destruct left as [|left].
  - by rewrite (walk_alias_0 _ _ _ Hget Hk).
  - rewrite (walk_alias _ _ _ _ Hget Hk).
    destruct HV as (_ & _ & Hd & Hdd).
    by rewrite (walk_name _ _ _ _ _ _ Hd Hdd Hget), Hv.
Qed.

End RunFacts.

(** ** The model against known answers *)

Example sha1_empty :
  Sha1.hexdigest [] = "da39a3ee5e6b4b0d3255bfef95601890afd80709"%string.
Proof. vm_compute. reflexivity. Qed.

Example sha1_abc :
  (let* v := Utf8.encode (str_of_string "abc") in Ok (Sha1.hexdigest v))
  = Ok "a9993e364706816aba3e25717850c26c9cd0d89d"%string.
Proof. vm_compute. reflexivity. Qed.

Example sha1_two_blocks :
  (let* v := Utf8.encode
       (str_of_string "abcdbcdecdefdefgefghfghighijhijkijkljklmklmnlmnomnopnopq") in
   Ok (Sha1.hexdigest v))
  = Ok "84983e441c3bd26ebaae4aa1f95129e5e54670f1"%string.
Proof. vm_compute. reflexivity. Qed.

Example utf8_samples :
  Utf8.encode [0x24; 0xA3; 0x20AC; 0x10348]
  = Ok [0x24; 0xC2; 0xA3; 0xE2; 0x82; 0xAC; 0xF0; 0x90; 0x8D; 0x88]
  ∧ Utf8.encode [0x61; 0xD800] = Raise UnicodeEncodeError.
Proof. vm_compute. split; reflexivity. Qed.

Example posixpath_samples :
  Posixpath.abspath "/home/u" "tools/../tools/tokencount/./tokencount.py"
  = "/home/u/tools/tokencount/tokencount.py"%string
  ∧ Posixpath.dirname "/home/u/tools/tokencount/tokencount.py"
    = "/home/u/tools/tokencount"%string
  ∧ Posixpath.dirname "/x" = "/"%string
  ∧ Posixpath.dirname "x" = ""%string
  ∧ Posixpath.split "//a//b" = ("//a", "b")%string
  ∧ Posixpath.normpath "//a/../../b/" = "//b"%string
  ∧ Posixpath.normpath "///a/../../b/" = "/b"%string
  ∧ Posixpath.normpath "a/../../b/" = "../b"%string
  ∧ Posixpath.join "/opt/tool" "/etc" = "/etc"%string
  ∧ Posixpath.components "//a/./b/" = ["a"; "."; "b"]%string.
Proof. vm_compute. repeat split; reflexivity. Qed.

Example pyint_samples :
  Pyint.repr 0 = "0"%string ∧ Pyint.repr 1203 = "1203"%string
  ∧ Pyint.value "1203" = Some 1203%nat ∧ Pyint.value "12a" = None.
Proof. vm_compute. repeat split; reflexivity. Qed.

(** The sample worlds, run: in the clean world the script makes the
    directory and the alias, and the alias leads nowhere, so the stand-in
    library finds no vocabulary; a second priming of what is left dies in
    [os.symlink]. *)
Example clean_world_runs :
  let w1 := (Tokencount.prime Samples.sample_file Samples.clean_world).1 in
  Tokencount.prime Samples.sample_file Samples.clean_world = (w1, Ok tt)
  ∧ (Tokencount.main Samples.sample_encode Samples.sample_file Samples.hello
       Samples.clean_world).2 = Raise (LibraryError 3)
  ∧ (Tokencount.prime Samples.sample_file
       (Tokencount.respawn Samples.clean_world w1)).2 = Raise FileExistsError.
Proof. vm_compute. repeat split; reflexivity. Qed.

(** ** The claims *)

Import Posixpath Fs Tokencount Notions Samples.
Import PathFacts FsFacts CallFacts PyintFacts Sha1Facts ScriptFacts.
Import Collaborator RunFacts.
#[local] Open Scope string_scope.

(** C1.  With a dangling alias under the cache key the run does not leave
    the entry alone and carry on: [os.path.exists] answers no,
    [os.symlink] is called and raises [FileExistsError], and the run ends
    there with status 1, whatever the input and the library.  The entry
    itself stays as it was. *)
Theorem stale_alias_stops_run
    (tiktoken_encode : world → str → result (list Z)) (stdin : str) :
  let path := "/opt/tokencount/cache/9b5ad71b2ce5302211f9c61530b329a4922fc6a4" in
  let after := setenv "TIKTOKEN_CACHE_DIR" "/opt/tokencount/cache" stale_world in
  link_path sample_file stale_world = Ok path
  ∧ lstat stale_world path = Ok (Symlink target_path)
  ∧ exists_ stale_world path = false
  ∧ main tiktoken_encode sample_file stdin stale_world
    = (after, Raise FileExistsError)
  ∧ exit_code (main tiktoken_encode sample_file stdin stale_world).2 = 1%Z
  ∧ lstat after path = Ok (Symlink target_path).
Proof.
  assert (Hp : prime sample_file stale_world
               = (setenv "TIKTOKEN_CACHE_DIR" "/opt/tokencount/cache" stale_world,
                  Raise FileExistsError)) by (vm_compute; reflexivity).
  intros path after. rewrite main_eq, Hp.
  split; [vm_compute; reflexivity |].
  split; [vm_compute; reflexivity |].
  split; [vm_compute; reflexivity |].
  split; [reflexivity |].
  split; [reflexivity |].
  vm_compute; reflexivity.
Qed.

(** C2.  The cache key is the SHA-1 digest of the UTF-8 octets of the
    fixed URL in lowercase hexadecimal: the constant
    9b5ad71b2ce5302211f9c61530b329a4922fc6a4, forty characters long,
    whatever the world the script runs in. *)
Theorem cache_key_constant :
  (∃ octets,
      Utf8.encode blobpath = Ok octets
      ∧ octets = blobpath
      ∧ cache_key = Ok (Sha1.hex (Sha1.digest octets)))
  ∧ cache_key = Ok "9b5ad71b2ce5302211f9c61530b329a4922fc6a4"
  ∧ String.length "9b5ad71b2ce5302211f9c61530b329a4922fc6a4" = 40%nat
  ∧ string_forall lower_hex "9b5ad71b2ce5302211f9c61530b329a4922fc6a4" = true
  ∧ ∀ file w,
      link_path file w
      = Ok (join (cache_dir file w) "9b5ad71b2ce5302211f9c61530b329a4922fc6a4").
Proof.
  split; [| split; [| split; [| split]]].
  - exists blobpath. split; [vm_compute; reflexivity | split; [reflexivity |]].
    vm_compute; reflexivity.
  - exact cache_key_eq.
  - reflexivity.
  - reflexivity.
  - exact link_path_eq.
Qed.

(** C3, as the claim has it, fails: with the vocabulary next to the
    script, the alias the script makes leads nowhere, while the file next
    to the script is there. *)
Lemma alias_misses_file_next_to_tool :
  let path := "/opt/tokencount/cache/9b5ad71b2ce5302211f9c61530b329a4922fc6a4" in
  let w' := (prime sample_file clean_world).1 in
  prime sample_file clean_world = (w', Ok tt)
  ∧ link_path sample_file clean_world = Ok path
  ∧ lstat w' path = Ok (Symlink target_path)
  ∧ stat w' (join (script_dir sample_file clean_world) vocabulary_name)
    = Ok ["opt"; "tokencount"; vocabulary_name]
  ∧ stat w' path = Raise FileNotFoundError
  ∧ stat w' path
    ≠ stat w' (join (script_dir sample_file clean_world) vocabulary_name).
Proof.
  vm_compute. repeat split; discriminate.
Qed.

(** C3, as the code has it.  The alias the script makes stores the text
    [./cl100k_base.tiktoken]; a lookup through it goes on in the directory
    that holds the alias, the cache directory: it leads exactly where
    [cl100k_base.tiktoken] inside the cache directory leads (one link of
    the kernel's budget being spent on the alias). *)
Theorem alias_resolves_in_cache_dir
    (file : string) (w w' : world) (path : string) :
  link_path file w = Ok path →
  exists_ w path = false →
  ensure_cache_link file w = (w', Ok tt) →
  lstat w' path = Ok (Symlink target_path)
  ∧ ∀ loc,
      stat w' path = Ok loc
      ↔ stat_within (MAXSYMLINKS - 1) w'
          (join (cache_dir file w) vocabulary_name) = Ok loc.
Proof.
  rewrite link_path_eq. intros [= <-] He Hl.
  destruct (ensure_cache_link_cases _ _ _ Hl)
    as [[He' _] | (_ & left & d & es & Ha & Hget & Hfree & ->)].
  { rewrite He in He'. discriminate. }
  destruct (dir_walk_created _ _ KEY (Symlink target_path) _ _ _ Ha Hget Hfree)
    as (Ha' & Hget' & _).
  eapply alias_lookup; [exact Ha' | exact Hget' | apply lookup_insert_eq].
Qed.

(** The vocabulary kept inside the cache directory: the alias is made and
    leads to it. *)
Lemma alias_resolves_in_cache_dir_witness :
  let path := "/opt/tokencount/cache/9b5ad71b2ce5302211f9c61530b329a4922fc6a4" in
  let w' := (ensure_cache_link sample_file vendored_world).1 in
  (link_path sample_file vendored_world = Ok path
   ∧ exists_ vendored_world path = false
   ∧ ensure_cache_link sample_file vendored_world = (w', Ok tt))
  ∧ lstat w' path = Ok (Symlink target_path)
  ∧ (∀ loc,
        stat w' path = Ok loc
        ↔ stat_within (MAXSYMLINKS - 1) w'
            (join (cache_dir sample_file vendored_world) vocabulary_name)
          = Ok loc)
  ∧ stat w' path = Ok ["opt"; "tokencount"; "cache"; vocabulary_name].
Proof.
  intros path w'.
  split; [repeat split; vm_compute; reflexivity |].
  split; [| split; [| vm_compute; reflexivity]];
    apply (alias_resolves_in_cache_dir sample_file vendored_world);
    vm_compute; reflexivity.
Defined.

(** C4.  A second run that finds the cache primed by the first (the
    entry under the cache key resolves) ends with the same output and
    leaves every file, the alias among them, as it found it. *)
Theorem second_run_changes_nothing
    (tiktoken_encode : world → str → result (list Z))
    (file : string) (stdin : str) (w0 w1 : world) (out : string) :
  main tiktoken_encode file stdin w0 = (w1, Ok out) →
  primed file w1 = true →
  main tiktoken_encode file stdin (respawn w0 w1) = (w1, Ok out).
Proof.
  intros Hrun Hprimed. rewrite main_eq in Hrun. rewrite main_eq.
  destruct (prime file w0) as [w1' [[]|e]] eqn:Hp; [| discriminate Hrun].
  destruct (tiktoken_encode w1' stdin) as [tokens|] eqn:Htok;
    [| discriminate Hrun].
  injection Hrun as -> <-.
  rewrite (prime_again _ _ _ Hp Hprimed), Htok. reflexivity.
Qed.

(** Two runs on "hello world" with the vocabulary inside the cache
    directory. *)
Lemma second_run_changes_nothing_witness :
  let w1 := (main sample_encode sample_file hello vendored_world).1 in
  (main sample_encode sample_file hello vendored_world
   = (w1, Ok ("11" +:+ String "010" ""))
   ∧ primed sample_file w1 = true)
  ∧ main sample_encode sample_file hello (respawn vendored_world w1)
    = (w1, Ok ("11" +:+ String "010" "")).
Proof.
  intros w1. split; [split; vm_compute; reflexivity |].
  apply (second_run_changes_nothing sample_encode sample_file hello
           vendored_world); vm_compute; reflexivity.
Defined.

(** C5, as the claim has it, fails.  In the clean sample world the alias
    the script makes leads nowhere, so the library has a miss; with a
    library that fetches the vocabulary the run ends well, and the one
    entry of the cache directory is then the regular file the library
    moved onto the key, no alias. *)
Lemma clean_run_ends_without_alias :
  let w := clean_world in
  let cache := cache_dir sample_file w in
  let done := run (sample_fetch vocabulary) sample_file hello w in
  (isdir w (script_dir sample_file w) = true ∧ exists_ w cache = false)
  ∧ done.2 = Ok ("11" +:+ String "010" "")
  ∧ listdir done.1 cache = Ok {[ KEY := File vocabulary ]}
  ∧ ¬ ∃ target, listdir done.1 cache = Ok {[ KEY := Symlink target ]}.
Proof.
  assert (Hls : listdir (run (sample_fetch vocabulary) sample_file hello
                           clean_world).1
                  (cache_dir sample_file clean_world)
                = Ok {[ KEY := File vocabulary ]}) by (vm_compute; reflexivity).
  cbv zeta. split; [split; vm_compute; reflexivity |].
  split; [vm_compute; reflexivity |]. split; [exact Hls |].
  intros [target Ht]. rewrite Hls in Ht.
  pose proof (f_equal (λ r : result (gmap string node),
                         match r with
                         | Ok m => m !! KEY
                         | Raise _ => None
                         end) Ht) as Hk.
  cbv beta iota in Hk. rewrite !lookup_singleton_eq in Hk. discriminate Hk.
Qed.

(** C5, as the code has it.  In a clean environment (the tool's
    directory is there, the cache directory is not) lines 7 to 19, when
    they succeed, leave the cache directory in place with exactly one
    entry in it, the alias named by the cache key.  That is the world the
    library is called in, whatever library it is; the alias does not
    resolve there. *)
Theorem clean_priming_leaves_one_alias
    (tiktoken : world → str → world * result (list Z))
    (file : string) (stdin : str) (w w' : world) :
  isdir w (script_dir file w) = true →
  exists_ w (cache_dir file w) = false →
  prime file w = (w', Ok tt) →
  isdir w' (cache_dir file w) = true
  ∧ listdir w' (cache_dir file w)
    = Ok {[ "9b5ad71b2ce5302211f9c61530b329a4922fc6a4" := Symlink target_path ]}
  ∧ primed file w' = false
  ∧ run tiktoken file stdin w
    = match tiktoken w' stdin with
      | (w'', Ok tokens) => (w'', Ok (print (length tokens)))
      | (w'', Raise e) => (w'', Raise e)
      end.
Proof.
  intros Hsd Hnone Hp.
  destruct (prime_clean _ _ _ Hsd Hnone Hp) as (left & d & Ha & Hget).
  destruct (prime_proc _ _ _ Hp) as [Hc _].
  assert (Hcd : cache_dir file w' = cache_dir file w)
    by (by apply cache_dir_cwd).
  split; [| split; [| split]].
  - unfold isdir. rewrite stat_eq, cache_dir_nonempty, Ha.
    unfold bind. cbn [fst snd]. by rewrite Hget.
  - unfold listdir. rewrite stat_eq, cache_dir_nonempty, Ha.
    unfold bind. cbn [fst snd]. by rewrite Hget.
  - rewrite primed_eq, Hcd.
    apply (alias_dangles w' _ left d _ Ha Hget).
    + apply lookup_singleton_eq.
    + apply lookup_singleton_ne. discriminate.
  - by rewrite run_eq, Hp.
Qed.

(** The clean sample world and the fetching stand-in. *)
Lemma clean_priming_leaves_one_alias_witness :
  let w' := (prime sample_file clean_world).1 in
  (isdir clean_world (script_dir sample_file clean_world) = true
   ∧ exists_ clean_world (cache_dir sample_file clean_world) = false
   ∧ prime sample_file clean_world = (w', Ok tt))
  ∧ isdir w' (cache_dir sample_file clean_world) = true
  ∧ listdir w' (cache_dir sample_file clean_world)
    = Ok {[ "9b5ad71b2ce5302211f9c61530b329a4922fc6a4" := Symlink target_path ]}
  ∧ primed sample_file w' = false
  ∧ run (sample_fetch vocabulary) sample_file hello clean_world
    = match sample_fetch vocabulary w' hello with
      | (w'', Ok tokens) => (w'', Ok (print (length tokens)))
      | (w'', Raise e) => (w'', Raise e)
      end.
Proof.
  intros w'. split; [repeat split; vm_compute; reflexivity |].
  apply (clean_priming_leaves_one_alias (sample_fetch vocabulary) sample_file
           hello clean_world); vm_compute; reflexivity.
Defined.

(** C6.  Creating the cache directory changes nothing when the directory
    is there.  When it is not, either the call succeeds and the directory
    is there afterwards, or it raises and the run ends with that
    exception: nothing printed, status 1.  A tool directory that refuses
    entries gives [PermissionError], a regular file in the way gives
    [FileExistsError]. *)
Theorem makedirs_cache_dir :
  (∀ (tiktoken_encode : world → str → result (list Z))
     (file : string) (stdin : str) (w : world),
      if isdir w (cache_dir file w) then
        makedirs (cache_dir file w) w = (w, Ok tt)
      else
        match makedirs (cache_dir file w) w with
        | (w1, Ok _) => isdir w1 (cache_dir file w) = true
        | (w1, Raise e) =>
            main tiktoken_encode file stdin w = (w1, Raise e)
            ∧ stdout (main tiktoken_encode file stdin w).2 = ""
            ∧ exit_code (main tiktoken_encode file stdin w).2 = 1%Z
        end)
  ∧ makedirs (cache_dir sample_file readonly_world) readonly_world
    = (readonly_world, Raise PermissionError)
  ∧ makedirs (cache_dir sample_file blocked_world) blocked_world
    = (blocked_world, Raise FileExistsError).
Proof.
  split; [| split; vm_compute; reflexivity].
  intros tok file stdin w.
  destruct (isdir w (cache_dir file w)) eqn:Hdir; [by apply makedirs_isdir |].
  destruct (makedirs (cache_dir file w) w) as [w1 [[]|e]] eqn:Hmk.
  - by apply makedirs_ok in Hmk.
  - rewrite main_eq, prime_eq, ensure_cache_directory_eq, Hmk. done.
Qed.

(** C7.  On empty standard input, with the script's own stages done and
    a library that yields no token for the empty text, the run ends well
    and prints 0. *)
Theorem empty_input_prints_zero
    (tiktoken_encode : world → str → result (list Z))
    (file : string) (w w' : world) :
  prime file w = (w', Ok tt) →
  tiktoken_encode w' [] = Ok [] →
  main tiktoken_encode file [] w = (w', Ok ("0" +:+ String "010" ""))
  ∧ exit_code (main tiktoken_encode file [] w).2 = 0%Z.
Proof.
  intros Hp Ht. rewrite main_eq, Hp, Ht. done.
Qed.

(** The stand-in library on the empty text. *)
Lemma empty_input_prints_zero_witness :
  let w' := (prime sample_file vendored_world).1 in
  (prime sample_file vendored_world = (w', Ok tt)
   ∧ sample_encode w' [] = Ok [])
  ∧ main sample_encode sample_file [] vendored_world
    = (w', Ok ("0" +:+ String "010" ""))
  ∧ exit_code (main sample_encode sample_file [] vendored_world).2 = 0%Z.
Proof.
  intros w'. split; [split; vm_compute; reflexivity |].
  apply (empty_input_prints_zero sample_encode sample_file vendored_world);
    vm_compute; reflexivity.
Defined.

(** C8.  Two runs in a row on the same input that both end well print
    the same count, and the second leaves the files as the first left
    them. *)
Theorem repeated_runs_agree
    (tiktoken_encode : world → str → result (list Z))
    (file : string) (stdin : str) (w0 w1 w2 : world) (out1 out2 : string) :
  main tiktoken_encode file stdin w0 = (w1, Ok out1) →
  main tiktoken_encode file stdin (respawn w0 w1) = (w2, Ok out2) →
  out2 = out1 ∧ w2 = w1.
Proof.
  intros H1 H2. rewrite main_eq in H1, H2.
  destruct (prime file w0) as [w1' [[]|e]] eqn:Hp; [| discriminate H1].
  destruct (tiktoken_encode w1' stdin) as [tokens|] eqn:Htok;
    [| discriminate H1].
  injection H1 as -> <-.
  destruct (primed file w1) eqn:Hprimed.
  - rewrite (prime_again _ _ _ Hp Hprimed), Htok in H2.
    injection H2 as <- <-. split; reflexivity.
  - pose proof (prime_again_unprimed _ _ _ Hp Hprimed) as Hdies.
    destruct (prime file (respawn w0 w1)) as [w2' [[]|e]];
      [| discriminate H2].
    cbn [snd] in Hdies. discriminate Hdies.
Qed.

(** Two runs on "hello world", both ending well. *)
Lemma repeated_runs_agree_witness :
  let w1 := (main sample_encode sample_file hello vendored_world).1 in
  let out := "11" +:+ String "010" "" in
  (main sample_encode sample_file hello vendored_world = (w1, Ok out)
   ∧ main sample_encode sample_file hello (respawn vendored_world w1)
     = (w1, Ok out))
  ∧ out = out ∧ w1 = w1.
Proof.
  intros w1 out. split; [split; vm_compute; reflexivity |].
  apply (repeated_runs_agree sample_encode sample_file hello vendored_world
           w1 w1 out out); vm_compute; reflexivity.
Defined.

(** C9.  A run that ends well has written one line, the token count in
    decimal followed by a newline, and exits with status 0; a run that
    dies has written nothing and exits with status 1. *)
Theorem stdout_is_one_count_line
    (tiktoken_encode : world → str → result (list Z))
    (file : string) (stdin : str) (w w' : world) (r : result string) :
  main tiktoken_encode file stdin w = (w', r) →
  match r with
  | Ok out =>
      ∃ tokens,
        tiktoken_encode w' stdin = Ok tokens
        ∧ out = Pyint.repr (length tokens) +:+ String "010" ""
        ∧ Pyint.repr (length tokens) ≠ ""
        ∧ string_forall Pyint.is_digit (Pyint.repr (length tokens)) = true
        ∧ Pyint.value (Pyint.repr (length tokens)) = Some (length tokens)
        ∧ stdout r = out
        ∧ exit_code r = 0%Z
  | Raise _ => stdout r = "" ∧ exit_code r = 1%Z
  end.
Proof.
  rewrite main_eq.
  destruct (prime file w) as [w1 [[]|e]]; [| by intros [= <- <-]].
  destruct (tiktoken_encode w1 stdin) as [tokens|e] eqn:Htok;
    intros [= <- <-]; [| done].
  exists tokens. destruct (repr_spec (length tokens)) as (H1 & H2 & H3 & _).
  done.
Qed.

(** Eleven code points, eleven tokens of the stand-in library. *)
Lemma stdout_is_one_count_line_witness :
  let w' := (main sample_encode sample_file hello vendored_world).1 in
  let out := "11" +:+ String "010" "" in
  main sample_encode sample_file hello vendored_world = (w', Ok out)
  ∧ ∃ tokens,
      sample_encode w' hello = Ok tokens
      ∧ out = Pyint.repr (length tokens) +:+ String "010" ""
      ∧ Pyint.repr (length tokens) ≠ ""
      ∧ string_forall Pyint.is_digit (Pyint.repr (length tokens)) = true
      ∧ Pyint.value (Pyint.repr (length tokens)) = Some (length tokens)
      ∧ stdout (Ok out) = out
      ∧ exit_code (Ok out) = 0%Z.
Proof.
  intros w' out. split; [vm_compute; reflexivity |].
  apply (stdout_is_one_count_line sample_encode sample_file hello
           vendored_world w' (Ok out)).
  vm_compute. reflexivity.
Defined.

(** C10.  Whatever the URL, a cache key that is computed is forty
    lowercase hexadecimal characters; joined onto the cache directory it
    goes behind one separator as one more name, and the directory a new
    entry of that path goes to is the one the cache directory path leads
    to. *)
Theorem cache_key_is_a_child_name (url : str) (key : string) :
  cache_key_of url = Ok key →
  String.length key = 40%nat
  ∧ string_forall lower_hex key = true
  ∧ ∀ (dir : string) (w : world),
      let cache_dir := join dir "cache" in
      join cache_dir key = cache_dir +:+ "/" +:+ key
      ∧ components (join cache_dir key) = (components cache_dir ++ [key])%list
      ∧ ∀ d name,
          slot w (join cache_dir key) = Ok (d, name) →
          name = key ∧ stat w cache_dir = Ok d.
Proof.
  unfold cache_key_of. destruct (Utf8.encode url) as [octets|]; [| done].
  simpl. intros [= <-].
  pose proof (hexdigest_is_name octets) as Hn.
  split; [apply hexdigest_length |]. split; [apply hex_lower |].
  intros dir w. set (cd := join dir "cache").
  destruct Hn as (Hsep & Hne & Hd & Hdd).
  assert (Hcache : no_sep "cache" = true) by done.
  split; [| split].
  - apply join_name_sep; [done | |].
    + apply is_empty_false. by apply is_empty_join.
    + by apply endswith_sep_join.
  - by apply components_join.
  - intros d name. rewrite slot_join by done. rewrite stat_eq.
    replace (is_empty cd) with false
      by (symmetry; by apply is_empty_join).
    destruct (dir_walk w cd) as [[left d']|]; [| done]. simpl.
    destruct (get (root w) d') as [[| |]|]; try done.
    by intros [= <- <-].
Qed.

(** The fixed URL and its key. *)
Lemma cache_key_is_a_child_name_witness :
  cache_key_of blobpath = Ok KEY
  ∧ String.length KEY = 40%nat
  ∧ string_forall lower_hex KEY = true
  ∧ ∀ (dir : string) (w : world),
      let cache_dir := join dir "cache" in
      join cache_dir KEY = cache_dir +:+ "/" +:+ KEY
      ∧ components (join cache_dir KEY) = (components cache_dir ++ [KEY])%list
      ∧ ∀ d name,
          slot w (join cache_dir KEY) = Ok (d, name) →
          name = KEY ∧ stat w cache_dir = Ok d.
Proof.
  split; [vm_compute; reflexivity |].
  apply (cache_key_is_a_child_name blobpath KEY). vm_compute. reflexivity.
Defined.

(** ** Facts about growth *)
Module GrowthFacts.

Import Posixpath Fs Tokencount Notions Samples Further.
Import PathFacts FsFacts CallFacts PyintFacts Sha1Facts ScriptFacts.
#[local] Open Scope string_scope.

Lemma same_kind_trans a b c : same_kind a b → same_kind b c → same_kind a c.
Proof. destruct a, b, c; simpl; try done; congruence. Qed.

Lemma grows_trans t1 t2 t3 : grows t1 t2 → grows t2 t3 → grows t1 t3.
Proof.
  induction 1 as [|t d name n t' Hfree _ IH]; [done |].
  intros H. eapply grows_step; [exact Hfree | by apply IH].
Qed.

Lemma grows_kind t t' :
  grows t t' →
  ∀ loc x, get t loc = Some x →
    ∃ x', get t' loc = Some x' ∧ same_kind x x'.
Proof.
  induction 1 as [t|t d name n t' Hfree _ IH]; intros loc x Hx.
  - exists x. split; [done | apply same_kind_refl].
  - destruct (get_add_entry_kind t d name n loc x Hfree Hx) as (y & Hy & Hk).
    destruct (IH _ _ Hy) as (z & Hz & Hk').
    exists z. split; [done | by eapply same_kind_trans].
Qed.

Lemma grows_walk t t' :
  grows t t' →
  ∀ links cur a r, walk links t cur a = Ok r → walk links t' cur a = Ok r.
Proof.
  induction 1 as [t|t d name n t' Hfree _ IH]; intros links cur a r Hw;
    [done |].
  apply IH. by apply walk_add_entry.
Qed.

Lemma create_grows p n w w' :
  create p n w = Ok w' → grows (root w) (root w').
Proof.
  unfold create. destruct (slot w p) as [[d name]|]; [| done]. simpl.
  destruct (_ || _); [done |].
  destruct (get (root w) d) as [[wr es | |]|] eqn:Hget; try done.
  destruct (es !! name) eqn:Hn; [done |]. destruct wr; [| done].
  intros [= <-]. simpl. eapply grows_step; [| apply grows_refl].
  by rewrite (get_snoc _ _ _ _ _ Hget).
Qed.

Lemma makedirs_fuel_grows fuel :
  ∀ name w w' r,
    makedirs_fuel fuel name w = (w', r) → grows (root w) (root w').
Proof.
  assert (Hm : ∀ name w1 w'' r'',
    (match mkdir name w1 with
     | Ok w2 => (w2, Ok tt)
     | Raise e => if isdir w1 name then (w1, Ok tt) else (w1, Raise e)
     end) = (w'', r'') → grows (root w1) (root w'')).
  { intros name w1 w'' r''. destruct (mkdir name w1) as [w2|e] eqn:Hmk.
    - intros [= <- <-]. by eapply create_grows.
    - destruct (isdir w1 name); intros [= <- <-]; apply grows_refl. }
  induction fuel as [|fuel IH]; intros name w w' r;
    rewrite makedirs_fuel_unfold.
  - destruct (split name) as [h0 t0].
    destruct (if is_empty t0 then split h0 else (h0, t0)) as [head tail].
    destruct (negb (is_empty head) && negb (is_empty tail) && negb (exists_ w head)).
    + destruct (bool_decide (tail = "."));
        [intros [= <- <-]; apply grows_refl | apply Hm].
    + apply Hm.
  - destruct (split name) as [h0 t0].
    destruct (if is_empty t0 then split h0 else (h0, t0)) as [head tail].
    destruct (negb (is_empty head) && negb (is_empty tail) && negb (exists_ w head)).
    + destruct (makedirs_fuel fuel head w) as [w1 r1] eqn:Hrec.
      apply IH in Hrec.
      destruct r1 as [[]|[]]; try (intros [= <- <-]; exact Hrec);
        destruct (bool_decide (tail = "."));
        try (intros [= <- <-]; exact Hrec);
        intros H%Hm; by eapply grows_trans.
    + apply Hm.
Qed.

(** Whatever becomes of it, priming only adds entries. *)
Lemma prime_grows file w w' r :
  prime file w = (w', r) → grows (root w) (root w').
Proof.
  rewrite prime_eq, ensure_cache_directory_eq.
  destruct (makedirs (cache_dir file w) w) as [w1 r1] eqn:Hmk.
  apply makedirs_fuel_grows in Hmk.
  destruct r1 as [[]|e]; [| intros [= <- <-]; exact Hmk].
  rewrite ensure_cache_link_eq.
  destruct (exists_ _ _); [intros [= <- <-]; exact Hmk |].
  destruct (symlink _ _ _) as [w2|e] eqn:Hs; intros [= <- <-]; [| exact Hmk].
  unfold symlink in Hs. simpl in Hs. apply create_grows in Hs.
  eapply grows_trans; [exact Hmk | exact Hs].
Qed.

Lemma prime_cwd file w w' r : prime file w = (w', r) → cwd w' = cwd w.
Proof.
  rewrite prime_eq, ensure_cache_directory_eq.
  destruct (makedirs (cache_dir file w) w) as [w1 r1] eqn:Hmk.
  apply makedirs_fuel_proc in Hmk as [Hc _].
  destruct r1 as [[]|e]; [| intros [= <- <-]; exact Hc].
  rewrite ensure_cache_link_eq.
  destruct (exists_ _ _); [intros [= <- <-]; exact Hc |].
  destruct (symlink _ _ _) as [w2|e] eqn:Hs; intros [= <- <-]; [| exact Hc].
  apply symlink_proc in Hs as [Hc2 _]. rewrite Hc2. exact Hc.
Qed.

End GrowthFacts.

(** ** Facts about lookups, absolute paths and keys read back *)
Module MoreFacts.

Import Posixpath Fs Tokencount Notions Samples Further.
Import PathFacts FsFacts CallFacts PyintFacts Sha1Facts ScriptFacts GrowthFacts.
#[local] Open Scope string_scope.

Lemma lstat_join w a b left d wr es y :
  is_name b →
  dir_walk w a = Ok (left, d) →
  get (root w) d = Some (Dir wr es) →
  es !! b = Some y →
  lstat w (join a b) = Ok y.
Proof.
  intros Hn Ha Hget Hy. unfold lstat. rewrite slot_join, Ha by done.
  unfold bind. cbv beta iota. cbn [fst snd]. rewrite Hget.
  destruct Hn as (_ & _ & Hd & Hdd).
  rewrite !bool_decide_eq_false_2 by done.
  rewrite orb_false_l. cbv iota. cbn [fst snd].
  by rewrite (get_snoc _ _ _ _ _ Hget), Hy.
Qed.

Lemma listdir_inv w p es :
  listdir w p = Ok es →
  ∃ left d wr,
    is_empty p = false
    ∧ dir_walk w p = Ok (left, d)
    ∧ get (root w) d = Some (Dir wr es)
    ∧ writable_dir w p = wr
    ∧ isdir w p = true.
Proof.
  unfold listdir, writable_dir, isdir. rewrite stat_eq.
  destruct (is_empty p); [discriminate |].
  destruct (dir_walk w p) as [[left d]|]; [| discriminate].
  unfold bind. cbn [fst snd].
  destruct (get (root w) d) as [[wr es' | |]|] eqn:Hget; try discriminate.
  intros [= <-]. by exists left, d, wr.
Qed.

Lemma stat_absent w a b left d wr es :
  is_name b →
  dir_walk w a = Ok (left, d) →
  get (root w) d = Some (Dir wr es) →
  es !! b = None →
  exists_ w (join a b) = false.
Proof.
  intros Hn Ha Hget Hb. unfold exists_.
  rewrite stat_eq, dir_walk_join, Ha by done.
  destruct Hn as (Hnb & Hne & Hd & Hdd).
  rewrite is_empty_join by done. unfold bind at 2. cbn [fst snd].
  by rewrite (walk_name _ _ _ _ _ _ Hd Hdd Hget), Hb.
Qed.

(** *** Absolute paths *)

Lemma initial_slashes_abs p : isabs p = true → ∃ n, initial_slashes p = S n.
Proof.
  destruct p as [|c1 [|c2 [|c3 p]]]; simpl; try done; intros ->; eauto.
  - destruct (is_sep c2); eauto.
  - destruct (is_sep c2); [destruct (is_sep c3) |]; eauto.
Qed.

Lemma isabs_normpath p : isabs p = true → isabs (normpath p) = true.
Proof.
  intros Hp. unfold normpath.
  destruct (initial_slashes_abs p Hp) as [n ->].
  destruct p; [done |]. simpl is_empty. cbv iota zeta.
  change (seps (S n)) with (String "/" (seps n)).
  rewrite append_cons. done.
Qed.

Lemma isabs_dirname p : isabs p = true → isabs (dirname p) = true.
Proof.
  destruct p as [|c p]; [done |].
  change (isabs (String c p)) with (is_sep c). intros Hc.
  unfold dirname, split.
  change (rsplit (String c p))
    with (let '(h, t) := rsplit p in
          if is_sep c || negb (is_empty h) then (String c h, t)
          else (EmptyString, String c t)).
  destruct (rsplit p) as [h t]. rewrite Hc. cbn [orb]. cbv iota beta.
  cbn [fst]. change (is_empty (String c h)) with false. cbn [negb andb].
  destruct (all_sep (String c h)) eqn:Hall; cbn [negb]; cbv iota.
  - exact Hc.
  - rewrite isabs_rstrip_sep by exact Hall. exact Hc.
Qed.

Lemma isabs_getcwd w : isabs (getcwd w) = true.
Proof. reflexivity. Qed.

Lemma isabs_join_left a b : isabs a = true → isabs (join a b) = true.
Proof.
  intros Ha. unfold join. destruct (isabs b) eqn:Hb; [done |].
  assert (a ≠ "") by (by destruct a).
  destruct (is_empty a || endswith_sep a); by rewrite isabs_app.
Qed.

Lemma isabs_abspath cwd file : isabs cwd = true → isabs (abspath cwd file) = true.
Proof.
  intros Hc. unfold abspath. apply isabs_normpath.
  destruct (isabs file) eqn:Hf; [done | by apply isabs_join_left].
Qed.

Lemma isabs_script_dir file w : isabs (script_dir file w) = true.
Proof. apply isabs_dirname, isabs_abspath, isabs_getcwd. Qed.

(** *** Reading a key back *)

Lemma hexvalue_hexdigit (n : Z) :
  (0 ≤ n < 16)%Z → hexvalue (Sha1.hexdigit n) = Some n.
Proof.
  intros Hn.
  assert (n = 0 ∨ n = 1 ∨ n = 2 ∨ n = 3 ∨ n = 4 ∨ n = 5 ∨ n = 6 ∨ n = 7
          ∨ n = 8 ∨ n = 9 ∨ n = 10 ∨ n = 11 ∨ n = 12 ∨ n = 13 ∨ n = 14
          ∨ n = 15)%Z as H by lia.
  repeat (destruct H as [-> | H]; [reflexivity |]). subst. reflexivity.
Qed.

Lemma octet_range x k : (0 ≤ Sha1.octet x k < 256)%Z.
Proof.
  unfold Sha1.octet. change 255%Z with (Z.ones 8).
  rewrite Z.land_ones by lia. apply Z.mod_pos_bound. lia.
Qed.

Lemma digest_octets msg : Forall (λ b, 0 ≤ b < 256)%Z (Sha1.digest msg).
Proof.
  unfold Sha1.digest, Sha1.be32.
  repeat (apply Forall_app; split);
    repeat (apply Forall_cons; split; [apply octet_range |]);
    apply Forall_nil_2.
Qed.

Lemma unhex_hex bs :
  Forall (λ b, 0 ≤ b < 256)%Z bs → unhex (Sha1.hex bs) = Some bs.
Proof.
  induction 1 as [|b bs Hb _ IH]; [done |].
  cbn [Sha1.hex unhex]. rewrite IH.
  assert (0 ≤ Z.shiftr b 4 < 16)%Z as Hhi.
  { rewrite Z.shiftr_div_pow2 by lia. change (2 ^ 4)%Z with 16%Z.
    split; [apply Z.div_pos; lia | apply Z.div_lt_upper_bound; lia]. }
  assert (0 ≤ Z.land b 15 < 16)%Z as Hlo.
  { change 15%Z with (Z.ones 4). rewrite Z.land_ones by lia.
    apply Z.mod_pos_bound. lia. }
  rewrite (hexvalue_hexdigit _ Hhi), (hexvalue_hexdigit _ Hlo).
  do 2 f_equal.
  rewrite Z.shiftr_div_pow2 by lia. change 15%Z with (Z.ones 4).
  rewrite Z.land_ones by lia. change (2 ^ 4)%Z with 16%Z.
  pose proof (Z.div_mod b 16). lia.
Qed.

(** *** Text with and without an encoding *)

Lemma encode_char_none c : Utf8.encode_char c = None → ¬ scalar_value c.
Proof.
  unfold Utf8.encode_char, scalar_value.
  destruct (c <? 0)%Z eqn:H0; [apply Z.ltb_lt in H0; lia |].
  destruct (c <? 128)%Z; [done |].
  destruct (c <? 2048)%Z; [done |].
  destruct (c <? 65536)%Z.
  - destruct ((55296 <=? c)%Z && (c <=? 57343)%Z) eqn:Hs; [| done].
    apply andb_prop in Hs as [H1%Z.leb_le H2%Z.leb_le]. lia.
  - destruct (c <? 1114112)%Z eqn:Hmax; [done |].
    apply Z.ltb_ge in Hmax. lia.
Qed.

Lemma encode_char_some c bs : Utf8.encode_char c = Some bs → scalar_value c.
Proof.
  unfold Utf8.encode_char, scalar_value.
  destruct (c <? 0)%Z eqn:H0; [done |]. apply Z.ltb_ge in H0.
  destruct (c <? 128)%Z eqn:H1; [apply Z.ltb_lt in H1; lia |].
  destruct (c <? 2048)%Z eqn:H2; [apply Z.ltb_lt in H2; lia |].
  destruct (c <? 65536)%Z eqn:H3.
  - apply Z.ltb_lt in H3.
    destruct ((55296 <=? c)%Z && (c <=? 57343)%Z) eqn:Hs; [done |].
    apply andb_false_iff in Hs as [Hs%Z.leb_gt | Hs%Z.leb_gt]; lia.
  - destruct (c <? 1114112)%Z eqn:Hmax; [| done].
    apply Z.ltb_lt in Hmax. apply Z.ltb_ge in H3. lia.
Qed.

Lemma encode_cases s :
  match Utf8.encode s with
  | Ok _ => Forall scalar_value s
  | Raise e => e = UnicodeEncodeError ∧ Exists (λ c, ¬ scalar_value c) s
  end.
Proof.
  induction s as [|c s IH]; [constructor |].
  cbn [Utf8.encode].
  destruct (Utf8.encode_char c) as [bs|] eqn:Hc.
  - apply encode_char_some in Hc.
    destruct (Utf8.encode s) as [rest|e]; cbn [bind].
    + by constructor.
    + destruct IH as [-> IH]. split; [done | by apply Exists_cons_tl].
  - apply encode_char_none in Hc. split; [done | by apply Exists_cons_hd].
Qed.

End MoreFacts.

(** ** Facts about UTF-8 *)
Module Utf8Facts.
Import Utf8Back.
#[local] Open Scope Z_scope.

(** Bits set below a shifted quantity add up. *)
Lemma lor_add_pow2 (a b k : Z) :
  0 ≤ k → 0 ≤ b < 2 ^ k → Z.lor (a * 2 ^ k) b = a * 2 ^ k + b.
Proof.
  intros Hk Hb. rewrite <- Z.lxor_lor; [symmetry; apply Z.add_nocarry_lxor |];
    apply Z.bits_inj'; intros n Hn; rewrite Z.land_spec, Z.bits_0;
    destruct (Z.lt_ge_cases n k) as [Hlt | Hge].
  - by rewrite Z.mul_pow2_bits_low.
  - rewrite andb_false_iff. right.
    destruct (Z.eq_dec b 0) as [-> | Hb0]; [apply Z.bits_0 |].
    apply Z.bits_above_log2; [lia |].
    apply Z.log2_lt_pow2; [lia |].
    apply Z.lt_le_trans with (2 ^ k); [lia |].
    apply Z.pow_le_mono_r; lia.
  - by rewrite Z.mul_pow2_bits_low.
  - rewrite andb_false_iff. right.
    destruct (Z.eq_dec b 0) as [-> | Hb0]; [apply Z.bits_0 |].
    apply Z.bits_above_log2; [lia |].
    apply Z.log2_lt_pow2; [lia |].
    apply Z.lt_le_trans with (2 ^ k); [lia |].
    apply Z.pow_le_mono_r; lia.
Qed.

Lemma cont_eq (x : Z) : Utf8.cont x = 128 + x mod 64.
Proof.
  unfold Utf8.cont. change 0x3F with (Z.ones 6).
  rewrite Z.land_ones by lia. change (2 ^ 6) with 64.
  change 0x80 with (2 * 2 ^ 6). rewrite lor_add_pow2; [reflexivity | lia |].
  change (2 ^ 6) with 64. apply Z.mod_pos_bound. lia.
Qed.

Lemma lead2 (c : Z) :
  0 ≤ c < 0x800 → Z.lor 0xC0 (Z.shiftr c 6) = 192 + c / 64.
Proof.
  intros Hc. rewrite Z.shiftr_div_pow2 by lia. change (2 ^ 6) with 64.
  change 0xC0 with (3 * 2 ^ 6). rewrite lor_add_pow2; [reflexivity | lia |].
  change (2 ^ 6) with 64. Z.div_mod_to_equations. lia.
Qed.

Lemma lead3 (c : Z) :
  0 ≤ c < 0x10000 → Z.lor 0xE0 (Z.shiftr c 12) = 224 + c / 4096.
Proof.
  intros Hc. rewrite Z.shiftr_div_pow2 by lia. change (2 ^ 12) with 4096.
  change 0xE0 with (7 * 2 ^ 5). rewrite lor_add_pow2; [reflexivity | lia |].
  change (2 ^ 5) with 32. Z.div_mod_to_equations. lia.
Qed.

Lemma lead4 (c : Z) :
  0 ≤ c < 0x110000 → Z.lor 0xF0 (Z.shiftr c 18) = 240 + c / 262144.
Proof.
  intros Hc. rewrite Z.shiftr_div_pow2 by lia. change (2 ^ 18) with 262144.
  change 0xF0 with (15 * 2 ^ 4). rewrite lor_add_pow2; [reflexivity | lia |].
  change (2 ^ 4) with 16. Z.div_mod_to_equations. lia.
Qed.

Lemma shiftr6 (c : Z) : Z.shiftr c 6 = c / 64.
Proof. by rewrite Z.shiftr_div_pow2. Qed.

Lemma shiftr12 (c : Z) : Z.shiftr c 12 = c / 4096.
Proof. by rewrite Z.shiftr_div_pow2. Qed.

Lemma decode_cons1 b0 r0 :
  b0 < 0x80 → decode (b0 :: r0) = cons b0 <$> decode r0.
Proof.
  intros H. cbn [decode]. destruct (Z.ltb_spec b0 0x80); [reflexivity | lia].
Qed.

Lemma decode_cons2 b0 b1 r1 :
  0x80 ≤ b0 < 0xE0 →
  decode (b0 :: b1 :: r1) = cons (low 5 b0 * 64 + low 6 b1) <$> decode r1.
Proof.
  intros H. cbn [decode]. destruct (Z.ltb_spec b0 0x80); [lia |].
  destruct (Z.ltb_spec b0 0xE0); [reflexivity | lia].
Qed.

Lemma decode_cons3 b0 b1 b2 r2 :
  0xE0 ≤ b0 < 0xF0 →
  decode (b0 :: b1 :: b2 :: r2)
  = cons ((low 4 b0 * 64 + low 6 b1) * 64 + low 6 b2) <$> decode r2.
Proof.
  intros H. cbn [decode]. destruct (Z.ltb_spec b0 0x80); [lia |].
  destruct (Z.ltb_spec b0 0xE0); [lia |].
  destruct (Z.ltb_spec b0 0xF0); [reflexivity | lia].
Qed.

Lemma decode_cons4 b0 b1 b2 b3 r3 :
  0xF0 ≤ b0 →
  decode (b0 :: b1 :: b2 :: b3 :: r3)
  = cons (((low 3 b0 * 64 + low 6 b1) * 64 + low 6 b2) * 64 + low 6 b3)
      <$> decode r3.
Proof.
  intros H. cbn [decode]. destruct (Z.ltb_spec b0 0x80); [lia |].
  destruct (Z.ltb_spec b0 0xE0); [lia |].
  destruct (Z.ltb_spec b0 0xF0); [lia | reflexivity].
Qed.

(** One encoded code point is read back as itself. *)
Lemma decode_encode_char (c : Z) (bs rest : bytes) :
  Utf8.encode_char c = Some bs →
  decode (bs ++ rest)%list = cons c <$> decode rest.
Proof.
  unfold Utf8.encode_char.
  destruct (Z.ltb_spec c 0); [discriminate |].
  destruct (Z.ltb_spec c 0x80).
  { intros [= <-]. cbn [app]. by apply decode_cons1. }
  destruct (Z.ltb_spec c 0x800).
  { intros [= <-]. cbn [app]. rewrite lead2, !cont_eq by lia.
    rewrite decode_cons2 by (Z.div_mod_to_equations; lia).
    f_equal. f_equal. unfold low. change (2 ^ 5) with 32. change (2 ^ 6) with 64.
    Z.div_mod_to_equations. lia. }
  destruct (Z.ltb_spec c 0x10000).
  { destruct (Z.leb_spec 0xD800 c), (Z.leb_spec c 0xDFFF); cbn [andb];
      try discriminate;
      intros [= <-]; cbn [app]; rewrite lead3, !cont_eq, shiftr6 by lia;
      (rewrite decode_cons3 by (Z.div_mod_to_equations; lia));
      f_equal; f_equal; unfold low;
      change (2 ^ 4) with 16; change (2 ^ 6) with 64;
      Z.div_mod_to_equations; lia. }
  destruct (Z.ltb_spec c 0x110000); [| discriminate].
  intros [= <-]. cbn [app]. rewrite lead4, !cont_eq, shiftr6, shiftr12 by lia.
  rewrite decode_cons4 by (Z.div_mod_to_equations; lia).
  f_equal. f_equal. unfold low. change (2 ^ 3) with 8. change (2 ^ 6) with 64.
  Z.div_mod_to_equations. lia.
Qed.

Lemma decode_encode (s : str) (bs : bytes) :
  Utf8.encode s = Ok bs → decode bs = Some s.
Proof.
  revert bs. induction s as [|c s IH]; intros bs.
  - cbn [Utf8.encode]. by intros [= <-].
  - cbn [Utf8.encode].
    destruct (Utf8.encode_char c) as [cs|] eqn:Hc; [| discriminate].
    destruct (Utf8.encode s) as [rest|]; [| discriminate].
    cbn [bind]. intros [= <-].
    rewrite (decode_encode_char _ _ _ Hc), (IH rest eq_refl). reflexivity.
Qed.

End Utf8Facts.

(** ** Facts about normal forms and the stages in place *)
Module NormFacts.

Import Posixpath Fs Tokencount Notions Samples Further.
Import PathFacts FsFacts CallFacts PyintFacts Sha1Facts ScriptFacts.
Import GrowthFacts MoreFacts.
#[local] Open Scope string_scope.

(** *** [split] and [dirname] *)

Lemma endswith_sep_rstrip_sep (a : string) : endswith_sep (rstrip_sep a) = false.
Proof.
  induction a as [|c a IH]; [reflexivity |].
  cbn [rstrip_sep]. destruct (is_sep c) eqn:Hc; cbn [andb].
  - destruct (rstrip_sep a) as [|c' r] eqn:Hr; [reflexivity |].
    cbn [is_empty]. exact IH.
  - destruct (rstrip_sep a) as [|c' r] eqn:Hr; [cbn; exact Hc | exact IH].
Qed.

Lemma rstrip_sep_fixed (a : string) : endswith_sep a = false → rstrip_sep a = a.
Proof.
  induction a as [|c a IH]; [reflexivity |].
  destruct a as [|c' a'].
  - cbn. by intros ->.
  - intros H. change (endswith_sep (String c' a') = false) in H.
    cbn [rstrip_sep] in *. rewrite (IH H).
    cbn [is_empty]. by rewrite andb_false_r.
Qed.

(** The head [split] gives has nothing left to strip. *)
Lemma head_of_dirname (p : string) : head_of (dirname p) = dirname p.
Proof.
  unfold dirname, split. destruct (rsplit p) as [h t]. cbn [fst].
  unfold head_of.
  destruct (is_empty h) eqn:He; cbn [negb andb].
  - apply is_empty_true in He as ->. reflexivity.
  - destruct (all_sep h) eqn:Ha; cbn [negb]; [by rewrite Ha |].
    destruct (all_sep (rstrip_sep h)); [reflexivity |].
    apply rstrip_sep_fixed, endswith_sep_rstrip_sep.
Qed.

(** [join] taken apart again. *)
Lemma split_join_dirname (p b : string) :
  no_sep b = true → split (join (dirname p) b) = (dirname p, b).
Proof. intros Hb. by rewrite split_join_name, head_of_dirname. Qed.

Lemma rsplit_parts (p : string) :
  p = (rsplit p).1 +:+ (rsplit p).2
  ∧ no_sep (rsplit p).2 = true
  ∧ ((rsplit p).1 = "" ∨ ∃ h, (rsplit p).1 = h +:+ "/").
Proof.
  induction p as [|c p (IH1 & IH2 & IH3)].
  - repeat split. by left.
  - cbn [rsplit]. destruct (rsplit p) as [h t]. cbn [fst snd] in *.
    destruct (is_sep c) eqn:Hc; cbn [orb].
    + cbn [fst snd]. rewrite append_cons, <- IH1. split; [reflexivity |].
      split; [exact IH2 |]. right.
      destruct IH3 as [-> | [h' ->]].
      * exists "". rewrite append_nil_l.
        unfold is_sep in Hc. apply Ascii.eqb_eq in Hc. by subst c.
      * exists (String c h'). by rewrite append_cons.
    + destruct (is_empty h) eqn:He; cbn [negb fst snd].
      * apply is_empty_true in He. subst h. rewrite append_nil_l in *.
        subst t. split; [reflexivity |]. split; [| by left].
        cbn [no_sep]. by rewrite Hc, IH2.
      * rewrite append_cons, <- IH1. split; [reflexivity |].
        split; [exact IH2 |]. right.
        destruct IH3 as [-> | [h' ->]]; [discriminate He |].
        exists (String c h'). by rewrite append_cons.
Qed.

(** The names of a path are those of its [dirname], then those of the
    tail. *)
Lemma components_split (p : string) :
  components p = (components (dirname p) ++ components (split p).2)%list.
Proof.
  unfold dirname, split.
  destruct (rsplit_parts p) as (Hp & _ & Hh).
  destruct (rsplit p) as [h t]. cbn [fst snd] in *.
  assert (Hc : components (if negb (is_empty h) && negb (all_sep h)
                           then rstrip_sep h else h) = components h).
  { destruct (negb (is_empty h) && negb (all_sep h)); [| reflexivity].
    apply components_rstrip_sep. }
  rewrite Hc. rewrite Hp at 1.
  destruct Hh as [-> | [h' ->]].
  - by rewrite append_nil_l.
  - rewrite append_assoc. change ("/" +:+ t) with (String "/" t).
    rewrite components_app_sep.
    rewrite (components_app_all_sep h' "/") by reflexivity. reflexivity.
Qed.

(** *** [normpath] *)

Lemma fields_all_no_sep (s : string) : Forall (λ f, no_sep f = true) (fields s).
Proof.
  induction s as [|c s IH]; [by repeat constructor |].
  cbn [fields]. destruct (is_sep c) eqn:Hc; [by constructor |].
  destruct (fields s) as [|f fs]; [repeat constructor; cbn; by rewrite Hc |].
  inversion IH as [|? ? Hf Hfs]; subst. constructor; [| exact Hfs].
  cbn [no_sep]. by rewrite Hc, Hf.
Qed.

Lemma norm_comps_names (slashes : nat) :
  slashes ≠ 0%nat →
  ∀ comps new_comps,
    Forall (λ f, no_sep f = true) comps →
    Forall is_name new_comps →
    Forall is_name (norm_comps slashes comps new_comps).
Proof.
  intros Hs. induction comps as [|c comps IH]; intros new Hc Hn.
  - cbn [norm_comps]. by apply Forall_rev.
  - inversion Hc as [|? ? Hc1 Hc2]; subst. cbn [norm_comps].
    destruct (bool_decide (c = "")) eqn:E1; cbn [orb]; [by apply IH |].
    destruct (bool_decide (c = ".")) eqn:E2; cbn [orb]; [by apply IH |].
    apply bool_decide_eq_false in E1, E2.
    destruct (bool_decide (c = "..")) eqn:E3; cbn [negb orb].
    + rewrite (bool_decide_eq_false_2 (slashes = 0%nat)) by exact Hs.
      cbn [andb orb].
      destruct new as [|top new'].
      * by apply IH.
      * inversion Hn as [|? ? Ht Hn']; subst.
        rewrite (bool_decide_eq_false_2 (top = "..")) by apply Ht.
        apply IH; [exact Hc2 | exact Hn'].
    + apply bool_decide_eq_false in E3.
      apply IH; [exact Hc2 |]. constructor; [| exact Hn].
      repeat split; assumption.
Qed.

Lemma components_cons_sep (s : string) : components (String "/" s) = components s.
Proof.
  change (String "/" s) with ("" +:+ String "/" s).
  by rewrite components_app_sep, components_empty.
Qed.

Lemma components_seps (n : nat) (s : string) :
  components (seps n +:+ s) = components s.
Proof.
  induction n as [|n IH]; cbn [seps].
  - by rewrite append_nil_l.
  - by rewrite append_cons, components_cons_sep.
Qed.

Lemma sep_join_cons (c : string) (comps : list string) :
  comps ≠ [] → sep_join (c :: comps) = c +:+ String "/" (sep_join comps).
Proof. destruct comps; [done |]. reflexivity. Qed.

Lemma components_sep_join (comps : list string) :
  Forall is_name comps → components (sep_join comps) = comps.
Proof.
  induction 1 as [|c comps Hc Hcs IH]; [reflexivity |].
  destruct comps as [|c' comps'].
  - cbn [sep_join]. apply components_name; apply Hc.
  - rewrite sep_join_cons by discriminate.
    rewrite components_app_sep, IH, components_name by apply Hc.
    reflexivity.
Qed.

(** An absolute path in normal form is made of names only. *)
Lemma components_normpath (p : string) :
  isabs p = true → Forall is_name (components (normpath p)).
Proof.
  intros Hp. unfold normpath.
  destruct p as [|c p']; [discriminate Hp |]. cbn [is_empty].
  destruct (initial_slashes_abs _ Hp) as [n Hn]. rewrite Hn.
  cbn [seps]. rewrite append_cons. cbn [is_empty].
  rewrite components_cons_sep, components_seps.
  assert (Hnames : Forall is_name
                     (norm_comps (S n) (fields (String c p')) [])).
  { apply norm_comps_names; [discriminate | apply fields_all_no_sep |].
    constructor. }
  by rewrite components_sep_join.
Qed.

Lemma Forall_app_l {A} (P : A → Prop) (l1 l2 : list A) :
  Forall P (l1 ++ l2)%list → Forall P l1.
Proof. rewrite Forall_app. tauto. Qed.

Lemma components_script_dir file w :
  Forall is_name (components (script_dir file w)).
Proof.
  unfold script_dir.
  pose proof (components_normpath
                (if isabs file then file else join (getcwd w) file)) as H.
  assert (Ha : isabs (if isabs file then file else join (getcwd w) file) = true).
  { destruct (isabs file) eqn:E; [exact E |].
    apply isabs_join_left, isabs_getcwd. }
  specialize (H Ha). fold (abspath (getcwd w) file) in H.
  rewrite components_split in H. by apply Forall_app_l in H.
Qed.

(** *** The cache directory in the script's directory *)

Lemma exists_dir_walk w p :
  exists_ w p = true → ∃ left d, dir_walk w p = Ok (left, d).
Proof.
  unfold exists_. rewrite stat_eq. destruct (is_empty p); [discriminate |].
  destruct (dir_walk w p) as [[l d]|]; [by exists l, d | discriminate].
Qed.

(** With the script's directory there [makedirs] is one [mkdir]. *)
Lemma makedirs_in_place file w :
  exists_ w (script_dir file w) = true →
  makedirs (cache_dir file w) w
  = match mkdir (cache_dir file w) w with
    | Ok w2 => (w2, Ok tt)
    | Raise e =>
        if isdir w (cache_dir file w) then (w, Ok tt) else (w, Raise e)
    end.
Proof.
  intros Hsd. destruct (exists_dir_walk _ _ Hsd) as (left & d & Ha).
  unfold makedirs. unfold cache_dir at 1 2.
  rewrite makedirs_fuel_join by apply cache_is_name.
  rewrite (exists_head_of _ _ _ _ Ha). reflexivity.
Qed.

(** What a [mkdir] of the cache directory that succeeds leaves. *)
Lemma mkdir_cache_dir file w w2 :
  mkdir (cache_dir file w) w = Ok w2 →
  ∃ left d es,
    dir_walk w (script_dir file w) = Ok (left, d)
    ∧ get (root w) d = Some (Dir true es)
    ∧ es !! "cache" = None
    ∧ w2 = World (add_entry (root w) d "cache" (Dir true ∅)) (cwd w) (environ w)
    ∧ dir_walk w2 (cache_dir file w) = Ok (left, (d ++ ["cache"])%list)
    ∧ get (root w2) (d ++ ["cache"])%list = Some (Dir true ∅).
Proof.
  intros Hmk. pose proof cache_is_name as HC.
  unfold mkdir, cache_dir in Hmk.
  destruct (create_ok _ _ _ _ _ HC Hmk)
    as (left & d & es & Ha & Hget & Hfree & Hw2).
  destruct (dir_walk_created _ _ "cache" (Dir true ∅) _ _ _ Ha Hget Hfree)
    as (Ha2 & Hget2 & Hnew2).
  rewrite <- Hw2 in Ha2, Hget2, Hnew2.
  exists left, d, es. split; [exact Ha |]. split; [exact Hget |].
  split; [exact Hfree |]. split; [exact Hw2 |]. split; [| exact Hnew2].
  exact (dir_walk_join_dir w2 _ "cache" _ _ _ _ true ∅ HC Ha2 Hget2
           (lookup_insert_eq _ _ _)).
Qed.

(** The last stage with no entry under the key. *)
Lemma ensure_cache_link_free file w left d wr es :
  dir_walk w (cache_dir file w) = Ok (left, d) →
  get (root w) d = Some (Dir wr es) →
  es !! KEY = None →
  ensure_cache_link file w
  = if wr then
      (World (add_entry (root w) d KEY (Symlink target_path)) (cwd w) (environ w),
       Ok tt)
    else (w, Raise PermissionError).
Proof.
  intros Ha Hget Hfree. pose proof KEY_is_name as HK.
  rewrite ensure_cache_link_eq.
  rewrite (stat_absent _ _ _ _ _ _ _ HK Ha Hget Hfree).
  unfold symlink. change (is_empty target_path) with false. cbv iota.
  rewrite create_join, Ha by exact HK.
  unfold bind. cbn [fst snd]. rewrite Hget, Hfree.
  by destruct wr.
Qed.

(** *** Printing *)

Lemma append_inj_r (t s1 s2 : string) : s1 +:+ t = s2 +:+ t → s1 = s2.
Proof.
  revert s2. induction s1 as [|c s1 IH]; intros [|c2 s2] H.
  - reflexivity.
  - apply (f_equal String.length) in H.
    rewrite append_nil_l, append_cons in H. cbn [String.length] in H.
    rewrite length_app in H. lia.
  - apply (f_equal String.length) in H.
    rewrite append_nil_l, append_cons in H. cbn [String.length] in H.
    rewrite length_app in H. lia.
  - rewrite !append_cons in H. injection H as -> H. f_equal. by apply IH.
Qed.

End NormFacts.

(** ** Facts about joined names *)
Module JoinFacts.

Import Posixpath Fs Tokencount Notions Samples Further.
Import PathFacts FsFacts CallFacts PyintFacts Sha1Facts ScriptFacts.
Import GrowthFacts MoreFacts NormFacts.
#[local] Open Scope string_scope.

Lemma head_of_join (a b : string) :
  no_sep b = true → b ≠ "" → head_of (join a b) = join a b.
Proof.
  intros Hb Hne. unfold head_of.
  destruct (all_sep (join a b)); [reflexivity |].
  apply rstrip_sep_fixed. by apply endswith_sep_join.
Qed.

Lemma length_join (a b : string) :
  no_sep b = true → b ≠ "" →
  (String.length a < String.length (join a b))%nat.
Proof.
  intros Hb Hne.
  assert (0 < String.length b)%nat by (destruct b; [done | cbn; lia]).
  destruct (join_name_cases a b Hb) as [[-> ->] | [(a' & -> & ->) | (_ & _ & ->)]].
  - exact H.
  - rewrite !length_app. cbn [String.length]. lia.
  - rewrite !length_app. cbn [String.length]. lia.
Qed.

End JoinFacts.

(** ** Further properties of the script *)

Import Further Utf8Back.
Import GrowthFacts MoreFacts Utf8Facts NormFacts JoinFacts.

(** X1.  The script's directory, the cache directory and the path of
    the entry are absolute whatever [__file__] and the working directory
    are, so looking the cache up does not depend on the working directory
    of whoever looks. *)
Theorem cache_dir_is_absolute (file : string) (w : world) :
  isabs (script_dir file w) = true
  ∧ isabs (cache_dir file w) = true
  ∧ (∃ path, link_path file w = Ok path ∧ isabs path = true)
  ∧ ∀ (t : node) (cwd1 cwd2 : location) (env1 env2 : gmap string string),
      stat (World t cwd1 env1) (cache_dir file w)
      = stat (World t cwd2 env2) (cache_dir file w).
Proof.
  pose proof (isabs_script_dir file w) as Hs.
  assert (Hc : isabs (cache_dir file w) = true).
  { unfold cache_dir. by rewrite isabs_join. }
  split; [exact Hs |]. split; [exact Hc |]. split.
  - eexists. split; [apply link_path_eq |].
    rewrite isabs_join; [exact Hc | apply KEY_is_name].
  - intros t c1 c2 e1 e2. rewrite !stat_eq. unfold dir_walk, start.
    by rewrite Hc.
Qed.

(** X2.  The cache directory lies directly in the script's directory
    and the entry directly in the cache directory: [split] takes the
    paths apart where [join] put them together, and the names of the
    cache directory path are proper names, none empty, [.] or [..]. *)
Theorem cache_dir_splits_back (file : string) (w : world) :
  split (cache_dir file w) = (script_dir file w, "cache")
  ∧ (∃ path, link_path file w = Ok path
             ∧ split path = (cache_dir file w, KEY))
  ∧ components (cache_dir file w)
    = (components (script_dir file w) ++ ["cache"])%list
  ∧ Forall is_name (components (cache_dir file w)).
Proof.
  pose proof cache_is_name as HC. pose proof KEY_is_name as HK.
  assert (Hcomp : components (cache_dir file w)
                  = (components (script_dir file w) ++ ["cache"])%list).
  { unfold cache_dir. apply components_join; [apply HC | discriminate]. }
  split; [unfold cache_dir, script_dir; apply split_join_dirname, HC |].
  split.
  - exists (join (cache_dir file w) KEY). split; [apply link_path_eq |].
    rewrite split_join_name by apply HK. f_equal.
    assert (He : endswith_sep (cache_dir file w) = false).
    { unfold cache_dir. apply endswith_sep_join; [apply HC | discriminate]. }
    unfold head_of. destruct (all_sep (cache_dir file w)); [reflexivity |].
    by apply rstrip_sep_fixed.
  - split; [exact Hcomp |]. rewrite Hcomp. apply Forall_app. split.
    + apply components_script_dir.
    + by repeat constructor.
Qed.

(** X3.  [os.makedirs] makes the parent that is missing before the
    directory it was asked for: when it succeeds in a directory without
    the first name, both directories are there afterwards, one in the
    other, the inner one empty and the only entry of the outer one;
    nothing that was there before is removed or replaced. *)
Theorem makedirs_makes_missing_parent
    (w w' : world) (a b c : string) (left : nat) (d : location)
    (wr : bool) (entries : gmap string node) :
  is_name b → is_name c →
  dir_walk w a = Ok (left, d) →
  get (root w) d = Some (Dir wr entries) →
  entries !! b = None →
  makedirs (join (join a b) c) w = (w', Ok tt) →
  isdir w' (join a b) = true
  ∧ isdir w' (join (join a b) c) = true
  ∧ listdir w' (join (join a b) c) = Ok ∅
  ∧ (∃ inner, listdir w' (join a b) = Ok {[ c := inner ]})
  ∧ (∀ loc x, get (root w) loc = Some x →
              ∃ x', get (root w') loc = Some x' ∧ same_kind x x')
  ∧ cwd w' = cwd w ∧ environ w' = environ w.
Proof.
  intros Hb Hc Ha Hget Hfree Hmk.
  assert (Hb1 : no_sep b = true) by apply Hb.
  assert (Hb2 : b ≠ "") by apply Hb.
  assert (Hc1 : no_sep c = true) by apply Hc.
  assert (Hc2 : c ≠ "") by apply Hc.
  assert (Hkeep : ∀ loc x, get (root w) loc = Some x →
                    ∃ x', get (root w') loc = Some x' ∧ same_kind x x').
  { apply grows_kind. exact (makedirs_fuel_grows _ _ _ _ _ Hmk). }
  destruct (makedirs_fuel_proc _ _ _ _ _ Hmk) as [Hcwd Henv].
  pose proof (stat_absent _ _ _ _ _ _ _ Hb Ha Hget Hfree) as Hnone.
  assert (Hnd : isdir w (join a b) = false).
  { destruct (isdir w (join a b)) eqn:E; [| reflexivity].
    apply isdir_exists in E. rewrite E in Hnone. discriminate Hnone. }
  pose proof (length_join (join a b) c Hc1 Hc2) as Hlen.
  unfold makedirs at 1 in Hmk.
  destruct (String.length (join (join a b) c)) as [|fuel] eqn:Hf; [lia |].
  rewrite makedirs_fuel_join in Hmk by exact Hc.
  rewrite head_of_join, is_empty_join in Hmk by assumption.
  rewrite Hnone in Hmk. cbn [negb andb] in Hmk.
  rewrite makedirs_fuel_enough in Hmk by lia.
  unfold makedirs in Hmk. rewrite makedirs_fuel_join in Hmk by exact Hb.
  rewrite (exists_head_of _ _ _ _ Ha) in Hmk.
  unfold mkdir at 1 in Hmk. rewrite create_join, Ha in Hmk by exact Hb.
  unfold bind at 1 in Hmk. cbn [fst snd] in Hmk. rewrite Hget, Hfree in Hmk.
  destruct wr; [| rewrite Hnd in Hmk; discriminate Hmk].
  destruct (dir_walk_created _ _ b (Dir true ∅) _ _ _ Ha Hget Hfree)
    as (Ha1 & Hget1 & Hnew1).
  set (w1 := World (add_entry (root w) d b (Dir true ∅)) (cwd w) (environ w))
    in *.
  pose proof (dir_walk_join_dir w1 a b _ _ _ _ true ∅ Hb Ha1 Hget1
                (lookup_insert_eq _ _ _)) as Hab.
  unfold mkdir in Hmk. rewrite create_join, Hab in Hmk by exact Hc.
  unfold bind in Hmk. cbn [fst snd] in Hmk.
  rewrite Hnew1, lookup_empty in Hmk.
  destruct (dir_walk_created _ _ c (Dir true ∅) _ _ _ Hab Hnew1 (lookup_empty _))
    as (Hab2 & Hget2 & Hnew2).
  set (w2 := World (add_entry (root w1) (d ++ [b])%list c (Dir true ∅))
                   (cwd w1) (environ w1)) in *.
  assert (Hw' : w' = w2) by (injection Hmk as <-; reflexivity).
  clear Hmk. subst w'.
  pose proof (dir_walk_join_dir w2 (join a b) c _ _ _ _ true ∅ Hc Hab2 Hget2
                (lookup_insert_eq _ _ _)) as Habc.
  assert (He1 : is_empty (join a b) = false) by (by apply is_empty_join).
  assert (He2 : is_empty (join (join a b) c) = false)
    by (by apply is_empty_join).
  split; [| split; [| split; [| split; [| split]]]].
  - unfold isdir. rewrite stat_eq, He1, Hab2.
    unfold bind. cbn [fst snd]. by rewrite Hget2.
  - unfold isdir. rewrite stat_eq, He2, Habc.
    unfold bind. cbn [fst snd]. by rewrite Hnew2.
  - unfold listdir. rewrite stat_eq, He2, Habc.
    unfold bind. cbn [fst snd]. by rewrite Hnew2.
  - exists (Dir true ∅). unfold listdir. rewrite stat_eq, He1, Hab2.
    unfold bind. cbn [fst snd]. by rewrite Hget2, insert_empty.
  - exact Hkeep.
  - split; [exact Hcwd | exact Henv].
Qed.

(** A directory tree for the tool in an empty [/srv]. *)
Lemma makedirs_makes_missing_parent_witness :
  let w := in_home (Dir true {[ "srv" := Dir true ∅ ]}) in
  let w' := (makedirs "/srv/tokencount/cache" w).1 in
  (join (join "/srv" "tokencount") "cache" = "/srv/tokencount/cache"
   ∧ dir_walk w "/srv" = Ok (40%nat, ["srv"])
   ∧ get (root w) ["srv"] = Some (Dir true ∅)
   ∧ makedirs (join (join "/srv" "tokencount") "cache") w = (w', Ok tt))
  ∧ isdir w' "/srv/tokencount" = true
  ∧ isdir w' "/srv/tokencount/cache" = true
  ∧ listdir w' "/srv/tokencount/cache" = Ok ∅.
Proof.
  intros w w'.
  assert (Hmk : makedirs (join (join "/srv" "tokencount") "cache") w
                = (w', Ok tt)) by (vm_compute; reflexivity).
  split; [repeat split; try (vm_compute; reflexivity); exact Hmk |].
  destruct (makedirs_makes_missing_parent w w' "/srv" "tokencount" "cache"
              40 ["srv"] true ∅) as (H1 & H2 & H3 & _).
  - repeat split; discriminate.
  - repeat split; discriminate.
  - vm_compute. reflexivity.
  - vm_compute. reflexivity.
  - reflexivity.
  - exact Hmk.
  - split; [exact H1 |]. split; [exact H2 | exact H3].
Defined.

(** X4.  The script undoes nothing.  Run from a directory that exists,
    when [os.makedirs] raises nothing at all has changed, files, working
    directory and environment; when [os.symlink] raises the files are as
    [os.makedirs] left them and the environment names the cache
    directory. *)
Theorem failed_stage_undoes_nothing
    (file : string) (w w' : world) (e : exn) :
  exists_ w (script_dir file w) = true →
  prime file w = (w', Raise e) →
  match makedirs (cache_dir file w) w with
  | (w1, Raise e1) => e1 = e ∧ w1 = w ∧ w' = w
  | (w1, Ok _) =>
      root w' = root w1
      ∧ cwd w' = cwd w
      ∧ environ w'
        = <["TIKTOKEN_CACHE_DIR" := cache_dir file w]> (environ w)
  end.
Proof.
  intros Hsd Hp. rewrite prime_eq, ensure_cache_directory_eq in Hp.
  pose proof (makedirs_in_place _ _ Hsd) as Hin.
  destruct (makedirs (cache_dir file w) w) as [w1 [[]|e1]] eqn:Hmk.
  - destruct (makedirs_fuel_proc _ _ _ _ _ Hmk) as [Hc He].
    rewrite ensure_cache_link_eq in Hp. revert Hp.
    destruct (exists_ (setenv _ _ _) _); [intros Hp; discriminate Hp |].
    destruct (symlink _ _ _); [intros Hp; discriminate Hp |].
    intros Hp. injection Hp as <- _. cbn [setenv root cwd environ].
    split; [reflexivity |]. split; [exact Hc | by rewrite He].
  - injection Hp as <- <-. split; [reflexivity |].
    assert (Hw : w1 = w).
    { destruct (mkdir (cache_dir file w) w); [discriminate Hin |].
      destruct (isdir w (cache_dir file w)); [discriminate Hin |].
      by injection Hin. }
    by split.
Qed.

(** The tool directory refuses new entries. *)
Lemma failed_stage_undoes_nothing_witness :
  (exists_ readonly_world (script_dir sample_file readonly_world) = true
   ∧ prime sample_file readonly_world = (readonly_world, Raise PermissionError))
  ∧ match makedirs (cache_dir sample_file readonly_world) readonly_world with
    | (w1, Raise e1) =>
        e1 = PermissionError ∧ w1 = readonly_world
        ∧ readonly_world = readonly_world
    | (w1, Ok _) =>
        root readonly_world = root w1
        ∧ cwd readonly_world = cwd readonly_world
        ∧ environ readonly_world
          = <["TIKTOKEN_CACHE_DIR" := cache_dir sample_file readonly_world]>
              (environ readonly_world)
    end.
Proof.
  split; [split; vm_compute; reflexivity |].
  apply (failed_stage_undoes_nothing sample_file readonly_world readonly_world
           PermissionError); vm_compute; reflexivity.
Defined.

(** X5.  Run from a directory that exists, stages that succeed have
    written nothing, or the alias into the cache directory that was
    there, or the cache directory in the script's directory and the alias
    in it: nothing else is ever written. *)
Theorem stages_add_directory_and_alias_only
    (file : string) (w w' : world) :
  exists_ w (script_dir file w) = true →
  prime file w = (w', Ok tt) →
  root w' = root w
  ∨ (∃ d, stat w (cache_dir file w) = Ok d
          ∧ get (root w) (d ++ [KEY])%list = None
          ∧ root w' = add_entry (root w) d KEY (Symlink target_path))
  ∨ (∃ d, stat w (script_dir file w) = Ok d
          ∧ get (root w) (d ++ ["cache"])%list = None
          ∧ root w'
            = add_entry (add_entry (root w) d "cache" (Dir true ∅))
                        (d ++ ["cache"])%list KEY (Symlink target_path)).
Proof.
  intros Hsd Hp.
  rewrite prime_eq, ensure_cache_directory_eq, makedirs_in_place in Hp
    by exact Hsd.
  destruct (mkdir (cache_dir file w) w) as [w2|e0] eqn:Hmk.
  - right. right.
    destruct (mkdir_cache_dir _ _ _ Hmk)
      as (left & d & es & Ha & Hget & Hfree & Hw2 & Ha2 & Hnew2).
    set (wa := setenv "TIKTOKEN_CACHE_DIR" (cache_dir file w) w2) in Hp.
    assert (Hcd : cache_dir file wa = cache_dir file w).
    { apply cache_dir_cwd. unfold wa. rewrite Hw2. reflexivity. }
    assert (Hwa : dir_walk wa (cache_dir file wa)
                  = Ok (left, (d ++ ["cache"])%list))
      by (rewrite Hcd; exact Ha2).
    assert (Hga : get (root wa) (d ++ ["cache"])%list = Some (Dir true ∅))
      by exact Hnew2.
    rewrite (ensure_cache_link_free _ _ _ _ _ _ Hwa Hga (lookup_empty _)) in Hp.
    injection Hp as <-. exists d.
    split.
    { rewrite stat_eq, Ha.
      destruct (is_empty (script_dir file w)) eqn:E; [| reflexivity].
      apply is_empty_true in E. pose proof (isabs_script_dir file w) as Habs.
      rewrite E in Habs. discriminate Habs. }
    split; [by rewrite (get_snoc _ _ _ _ _ Hget) |].
    cbn [root]. unfold wa. cbn [setenv root]. rewrite Hw2. reflexivity.
  - destruct (isdir w (cache_dir file w)); [| discriminate Hp].
    destruct (ensure_cache_link_cases _ _ _ Hp)
      as [[_ ->] | (_ & left & d & es & Ha & Hget & Hfree & ->)].
    + by left.
    + right. left. exists d.
      change (cache_dir file (setenv _ _ w)) with (cache_dir file w) in Ha.
      assert (Ha' : dir_walk w (cache_dir file w) = Ok (left, d)) by exact Ha.
      assert (Hget' : get (root w) d = Some (Dir true es)) by exact Hget.
      split; [by rewrite stat_eq, cache_dir_nonempty, Ha' |].
      split; [by rewrite (get_snoc _ _ _ _ _ Hget') | reflexivity].
Qed.

(** The clean sample world: directory and alias. *)
Lemma stages_add_directory_and_alias_only_witness :
  let w' := (prime sample_file clean_world).1 in
  (exists_ clean_world (script_dir sample_file clean_world) = true
   ∧ prime sample_file clean_world = (w', Ok tt))
  ∧ (root w' = root clean_world
     ∨ (∃ d, stat clean_world (cache_dir sample_file clean_world) = Ok d
             ∧ get (root clean_world) (d ++ [KEY])%list = None
             ∧ root w' = add_entry (root clean_world) d KEY (Symlink target_path))
     ∨ (∃ d, stat clean_world (script_dir sample_file clean_world) = Ok d
             ∧ get (root clean_world) (d ++ ["cache"])%list = None
             ∧ root w'
               = add_entry (add_entry (root clean_world) d "cache" (Dir true ∅))
                           (d ++ ["cache"])%list KEY (Symlink target_path))).
Proof.
  intros w'. split; [split; vm_compute; reflexivity |].
  apply (stages_add_directory_and_alias_only sample_file clean_world w');
    vm_compute; reflexivity.
Defined.

(** X6.  What the library finds once the script's stages are done: the
    environment names the cache directory (and is otherwise as it was),
    the cache directory is a directory, and an entry sits under the cache
    key in it: one that resolves, or the alias the script has just made. *)
Theorem library_finds_cache (file : string) (w w' : world) :
  prime file w = (w', Ok tt) →
  environ w' !! "TIKTOKEN_CACHE_DIR" = Some (cache_dir file w)
  ∧ (∀ name, name ≠ "TIKTOKEN_CACHE_DIR" →
             environ w' !! name = environ w !! name)
  ∧ cwd w' = cwd w
  ∧ isdir w' (cache_dir file w) = true
  ∧ ∃ n, lstat w' (join (cache_dir file w) KEY) = Ok n
         ∧ (exists_ w' (join (cache_dir file w) KEY) = true
            ∨ n = Symlink target_path).
Proof.
  intros Hp. destruct (prime_proc _ _ _ Hp) as [Hc He].
  split; [rewrite He; apply lookup_insert_eq |].
  split; [intros name Hn; rewrite He; by apply lookup_insert_ne |].
  split; [exact Hc |].
  rewrite prime_eq in Hp.
  destruct (ensure_cache_directory file w) as [wa [[]|e]] eqn:Hd;
    [| discriminate Hp].
  destruct (ensure_cache_directory_proc _ _ _ Hd) as (Hca & _ & Hdir).
  assert (Hcd : cache_dir file wa = cache_dir file w) by (by apply cache_dir_cwd).
  destruct (ensure_cache_link_cases _ _ _ Hp)
    as [[Hex ->] | (_ & left & d & es & Ha & Hget & Hfree & ->)];
    rewrite Hcd in *.
  - split; [exact Hdir |].
    unfold exists_ in Hex.
    destruct (stat wa (join (cache_dir file w) KEY)) as [loc|] eqn:Hs;
      [| discriminate Hex].
    destruct (stat_join_inv _ _ _ _ KEY_is_name Hs)
      as (left & d & wr & es & y & Ha & Hget & Hy).
    exists y. split; [| left; unfold exists_; by rewrite Hs].
    eapply lstat_join; [apply KEY_is_name | exact Ha | exact Hget | exact Hy].
  - destruct (dir_walk_created _ _ KEY (Symlink target_path) _ _ _ Ha Hget Hfree)
      as (Ha' & Hget' & _).
    split.
    + unfold isdir. rewrite stat_eq, cache_dir_nonempty, Ha'.
      unfold bind. cbn [fst snd]. by rewrite Hget'.
    + exists (Symlink target_path). split; [| by right].
      eapply lstat_join; [apply KEY_is_name | exact Ha' | exact Hget' |].
      apply lookup_insert_eq.
Qed.

(** In the clean sample world, with an environment of its own. *)
Lemma library_finds_cache_witness :
  let w := World (root clean_world) (cwd clean_world) {[ "HOME" := "/home/user" ]} in
  let w' := (prime sample_file w).1 in
  prime sample_file w = (w', Ok tt)
  ∧ environ w' !! "TIKTOKEN_CACHE_DIR" = Some "/opt/tokencount/cache"
  ∧ environ w' !! "HOME" = Some "/home/user"
  ∧ isdir w' "/opt/tokencount/cache" = true
  ∧ lstat w' ("/opt/tokencount/cache/" +:+ KEY) = Ok (Symlink target_path).
Proof.
  intros w w'.
  assert (Hp : prime sample_file w = (w', Ok tt)) by (vm_compute; reflexivity).
  destruct (library_finds_cache sample_file w w' Hp) as (H1 & H2 & _ & H4 & _).
  split; [exact Hp |]. split; [exact H1 |].
  split; [rewrite H2 by discriminate; reflexivity |].
  split; [exact H4 | vm_compute; reflexivity].
Defined.

(** X7.  [str.encode()] loses nothing: the octets read back as UTF-8
    spell the text they were made from, so two texts with the same octets
    are one text. *)
Theorem encode_reads_back (s : str) (octets : bytes) :
  Utf8.encode s = Ok octets →
  decode octets = Some s
  ∧ ∀ s', Utf8.encode s' = Ok octets → s' = s.
Proof.
  intros Hs. pose proof (decode_encode _ _ Hs) as Hd.
  split; [exact Hd |].
  intros s' Hs'. apply decode_encode in Hs'.
  rewrite Hd in Hs'. by injection Hs'.
Qed.

(** A text with groups of one to four octets. *)
Lemma encode_reads_back_witness :
  let s := [0x24; 0xE9; 0x20AC; 0x1F600]%Z in
  let octets := [0x24; 0xC3; 0xA9; 0xE2; 0x82; 0xAC; 0xF0; 0x9F; 0x98; 0x80]%Z in
  Utf8.encode s = Ok octets
  ∧ decode octets = Some s
  ∧ ∀ s', Utf8.encode s' = Ok octets → s' = s.
Proof.
  intros s octets. split; [vm_compute; reflexivity |].
  apply (encode_reads_back s octets). vm_compute. reflexivity.
Defined.

(** X8.  A key is computed exactly for text made of Unicode scalar
    values; any other text (a lone surrogate in it) ends in
    [UnicodeEncodeError], and no other exception comes out of line 13. *)
Theorem cache_key_of_cases (url : str) :
  match cache_key_of url with
  | Ok _ => Forall scalar_value url
  | Raise e =>
      e = UnicodeEncodeError ∧ Exists (λ c, ¬ scalar_value c) url
  end.
Proof.
  unfold cache_key_of. pose proof (encode_cases url) as H.
  destruct (Utf8.encode url) as [octets|e]; cbn [bind]; exact H.
Qed.

(** X9.  The cache key keeps the whole digest: read back two characters
    at a time it gives the twenty octets of the SHA-1 digest, each below
    256; so two texts with one key have one digest. *)
Theorem cache_key_reads_back (url : str) (key : string) :
  cache_key_of url = Ok key →
  ∃ octets,
    Utf8.encode url = Ok octets
    ∧ unhex key = Some (Sha1.digest octets)
    ∧ length (Sha1.digest octets) = 20%nat
    ∧ Forall (λ b, 0 ≤ b < 256)%Z (Sha1.digest octets).
Proof.
  unfold cache_key_of. destruct (Utf8.encode url) as [octets|]; [| done].
  cbn [bind]. intros [= <-]. exists octets.
  split; [done |]. split; [| split; [apply digest_length | apply digest_octets]].
  apply unhex_hex, digest_octets.
Qed.

Lemma cache_key_reads_back_witness :
  cache_key_of blobpath = Ok KEY
  ∧ ∃ octets,
      Utf8.encode blobpath = Ok octets
      ∧ unhex KEY = Some (Sha1.digest octets)
      ∧ length (Sha1.digest octets) = 20%nat
      ∧ Forall (λ b, 0 ≤ b < 256)%Z (Sha1.digest octets).
Proof.
  split; [vm_compute; reflexivity |].
  apply (cache_key_reads_back blobpath KEY). vm_compute. reflexivity.
Defined.

(** X10.  Whenever an entry sits under the cache key and [os.path.exists]
    says no (a dangling link, a link that loops), the run ends in
    [os.symlink] with [FileExistsError]: the environment is set, no file
    is touched, the library is not asked. *)
Theorem unresolved_entry_stops_run
    (tiktoken_encode : world → str → result (list Z))
    (file : string) (stdin : str) (w : world) (n : node) :
  lstat w (join (cache_dir file w) KEY) = Ok n →
  exists_ w (join (cache_dir file w) KEY) = false →
  main tiktoken_encode file stdin w
  = (setenv "TIKTOKEN_CACHE_DIR" (cache_dir file w) w, Raise FileExistsError).
Proof.
  intros Hl He. rewrite main_eq.
  by rewrite (prime_unresolved _ _ _ Hl He).
Qed.

(** A link to itself under the key. *)
Lemma unresolved_entry_stops_run_witness :
  (lstat looping_world (join (cache_dir sample_file looping_world) KEY)
   = Ok (Symlink KEY)
   ∧ stat looping_world (join (cache_dir sample_file looping_world) KEY)
     = Raise LoopError)
  ∧ main sample_encode sample_file hello looping_world
    = (setenv "TIKTOKEN_CACHE_DIR" (cache_dir sample_file looping_world)
              looping_world,
       Raise FileExistsError).
Proof.
  split; [split; vm_compute; reflexivity |].
  apply (unresolved_entry_stops_run sample_encode sample_file hello
           looping_world (Symlink KEY)); vm_compute; reflexivity.
Defined.

(** X11.  Whenever the entry under the cache key resolves, whatever it
    is (the alias, a regular file the library cached itself, a
    directory), the script touches no file: it sets the environment and
    hands over to the library, and the run ends as the library's answer
    says. *)
Theorem resolving_entry_is_left_alone
    (tiktoken_encode : world → str → result (list Z))
    (file : string) (stdin : str) (w : world) :
  exists_ w (join (cache_dir file w) KEY) = true →
  let w' := setenv "TIKTOKEN_CACHE_DIR" (cache_dir file w) w in
  prime file w = (w', Ok tt)
  ∧ root w' = root w
  ∧ (main tiktoken_encode file stdin w).2
    = match tiktoken_encode w' stdin with
      | Ok tokens => Ok (print (length tokens))
      | Raise e => Raise e
      end.
Proof.
  intros He w'. pose proof (prime_primed _ _ He) as Hp. fold w' in Hp.
  split; [exact Hp |]. split; [reflexivity |].
  rewrite main_eq, Hp. by destruct (tiktoken_encode w' stdin).
Qed.

(** The library's own cache file under the key. *)
Lemma resolving_entry_is_left_alone_witness :
  let w' := setenv "TIKTOKEN_CACHE_DIR" (cache_dir sample_file cached_world)
                   cached_world in
  exists_ cached_world (join (cache_dir sample_file cached_world) KEY) = true
  ∧ prime sample_file cached_world = (w', Ok tt)
  ∧ root w' = root cached_world
  ∧ (main sample_encode sample_file hello cached_world).2
    = match sample_encode w' hello with
      | Ok tokens => Ok (print (length tokens))
      | Raise e => Raise e
      end.
Proof.
  intros w'. split; [vm_compute; reflexivity |].
  apply (resolving_entry_is_left_alone sample_encode sample_file hello
           cached_world). vm_compute. reflexivity.
Defined.

(** X12.  With the cache directory in place and no entry under the cache
    key, lines 7 to 19 set the environment and try the alias: when they
    succeed the directory holds the alias beside the entries it had, all
    of them as they were; when they raise no file has been touched. *)
Theorem alias_added_beside_other_entries
    (file : string) (w w' : world) (r : result unit)
    (entries : gmap string node) :
  listdir w (cache_dir file w) = Ok entries →
  entries !! KEY = None →
  prime file w = (w', r) →
  match r with
  | Ok _ =>
      listdir w' (cache_dir file w)
      = Ok (<[KEY := Symlink target_path]> entries)
  | Raise _ => root w' = root w
  end
  ∧ cwd w' = cwd w
  ∧ environ w' = <["TIKTOKEN_CACHE_DIR" := cache_dir file w]> (environ w).
Proof.
  intros Hls Hfree Hp.
  destruct (listdir_inv _ _ _ Hls) as (left & d & wr & _ & Ha & Hget & _ & Hdir).
  rewrite prime_eq, ensure_cache_directory_eq, (makedirs_isdir _ _ Hdir) in Hp.
  set (wa := setenv "TIKTOKEN_CACHE_DIR" (cache_dir file w) w) in Hp.
  assert (Hcd : cache_dir file wa = cache_dir file w) by reflexivity.
  assert (Hawa : dir_walk wa (cache_dir file wa) = Ok (left, d)) by exact Ha.
  assert (Hgwa : get (root wa) d = Some (Dir wr entries)) by exact Hget.
  rewrite (ensure_cache_link_free _ _ _ _ _ _ Hawa Hgwa Hfree) in Hp.
  destruct wr; injection Hp as <- <-.
  - split; [| split; reflexivity].
    destruct (dir_walk_created _ _ KEY (Symlink target_path) _ _ _ Hawa Hgwa Hfree)
      as (Ha' & Hget' & _).
    rewrite Hcd in Ha'.
    change (get (add_entry (root w) d KEY (Symlink target_path)) d
            = Some (Dir true (<[KEY:=Symlink target_path]> entries))) in Hget'.
    unfold listdir. rewrite stat_eq, cache_dir_nonempty.
    match goal with
    | |- context [dir_walk ?v _] =>
        change (dir_walk v (cache_dir file w) = Ok (left, d)) in Ha'
    end.
    rewrite Ha'. unfold bind. cbn [fst snd root]. by rewrite Hget'.
  - split; [reflexivity | split; reflexivity].
Qed.

(** The vocabulary inside the cache directory: writable, then not. *)
Lemma alias_added_beside_other_entries_witness :
  let w1 := (prime sample_file vendored_world).1 in
  let w2 := (prime sample_file sealed_world).1 in
  (prime sample_file vendored_world = (w1, Ok tt)
   ∧ prime sample_file sealed_world = (w2, Raise PermissionError))
  ∧ listdir w1 (cache_dir sample_file vendored_world)
    = Ok (<[KEY := Symlink target_path]>
            {[ "cl100k_base.tiktoken" := File vocabulary ]})
  ∧ root w2 = root sealed_world.
Proof.
  intros w1 w2. split; [split; vm_compute; reflexivity |]. split.
  - apply (alias_added_beside_other_entries sample_file vendored_world w1
             (Ok tt) {[ "cl100k_base.tiktoken" := File vocabulary ]});
      vm_compute; reflexivity.
  - apply (alias_added_beside_other_entries sample_file sealed_world w2
             (Raise PermissionError)
             {[ "cl100k_base.tiktoken" := File vocabulary ]});
      vm_compute; reflexivity.
Defined.

(** X13.  Lines 7 to 19 never remove or replace anything, whether they
    end well or not: every node that was there is still there, a
    directory still a directory and as writable as before, a regular file
    with its content, a link with its target. *)
Theorem stages_keep_every_node
    (file : string) (w : world) (loc : location) (x : node) :
  get (root w) loc = Some x →
  ∃ x', get (root (prime file w).1) loc = Some x' ∧ same_kind x x'.
Proof.
  intros Hx. destruct (prime file w) as [w' r] eqn:Hp.
  apply prime_grows in Hp. cbn [fst].
  by apply (grows_kind _ _ Hp).
Qed.

(** The vocabulary next to the script, after the stages in the clean
    world. *)
Lemma stages_keep_every_node_witness :
  get (root clean_world) ["opt"; "tokencount"; "cl100k_base.tiktoken"]
  = Some (File vocabulary)
  ∧ ∃ x', get (root (prime sample_file clean_world).1)
              ["opt"; "tokencount"; "cl100k_base.tiktoken"] = Some x'
          ∧ same_kind (File vocabulary) x'.
Proof.
  split; [vm_compute; reflexivity |].
  apply (stages_keep_every_node sample_file clean_world).
  vm_compute. reflexivity.
Defined.

(** X14.  A path that led somewhere before lines 7 to 19 leads to the
    same place after them: the entries the script adds redirect no path
    that was there. *)
Theorem stages_keep_every_path
    (file : string) (w : world) (path : string) (loc : location) :
  stat w path = Ok loc →
  stat (prime file w).1 path = Ok loc.
Proof.
  destruct (prime file w) as [w' r] eqn:Hp. cbn [fst].
  pose proof (prime_cwd _ _ _ _ Hp) as Hc. apply prime_grows in Hp.
  rewrite !stat_eq. destruct (is_empty path); [done |].
  unfold dir_walk, start. rewrite Hc.
  destruct (walk MAXSYMLINKS (root w) (if isabs path then [] else cwd w)
              (components path)) as [r0|] eqn:Hw; [| discriminate].
  by rewrite (grows_walk _ _ Hp _ _ _ _ Hw).
Qed.

Lemma stages_keep_every_path_witness :
  stat vendored_world "/opt/tokencount/cache/cl100k_base.tiktoken"
  = Ok ["opt"; "tokencount"; "cache"; "cl100k_base.tiktoken"]
  ∧ stat (prime sample_file vendored_world).1
         "/opt/tokencount/cache/cl100k_base.tiktoken"
    = Ok ["opt"; "tokencount"; "cache"; "cl100k_base.tiktoken"].
Proof.
  split; [vm_compute; reflexivity |].
  apply (stages_keep_every_path sample_file vendored_world).
  vm_compute. reflexivity.
Defined.

(** X15.  The printed line tells the count: different counts give
    different lines, and a count other than zero is written without a
    leading zero. *)
Theorem printed_line_tells_count (n m : nat) :
  (print n = print m ↔ n = m)
  ∧ (n ≠ 0%nat → ∃ c rest, print n = String c rest ∧ c ≠ "0"%char).
Proof.
  split; [split |].
  - unfold print. intros H. apply append_inj_r in H.
    destruct (repr_spec n) as (_ & _ & Hn & _).
    destruct (repr_spec m) as (_ & _ & Hm & _).
    rewrite H, Hm in Hn. by injection Hn.
  - by intros ->.
  - intros Hn. destruct (repr_spec n) as (_ & _ & _ & Hlead).
    destruct (Hlead Hn) as (c & rest & Hr & Hc).
    exists c, (rest +:+ String "010" ""). unfold print.
    rewrite Hr, append_cons. split; [reflexivity | exact Hc].
Qed.
